(** * sgpt/app.py: the command-line entry point [main] and its control loops

    A shallow embedding of [src/sgpt/app.py].  The entry point is a sequence
    of guards ([raise]), calls into handler objects, and three [while] loops.
    It is embedded as a computation in a small state-and-exception monad over
    a [World] that holds standard input, the answers the terminal will give
    to the confirmation prompt, and the chronological trace of observable
    events.  Unbounded loops run on fuel: a computation either returns
    ([Done]), raises a Python exception ([Raise]), or is still running when
    the fuel is used up ([Spin]).

    [main] is embedded twice.  In [Section App] every completion is
    answered; in [Section Failing] a completion may also fail, and the
    failure leaves [main] from wherever the call was made.  The second
    embedding is the first one when the service answers every call
    ([main_f_answers]). *)

From Stdlib Require Import Ascii String QArith.
From stdpp Require Import base option list strings gmap.

Local Open Scope string_scope.
Local Open Scope list_scope.

(** ** Data model *)

(** The line feed of the f-string on line 161. *)
Definition LF : string := String "010"%char EmptyString.

(** Modelled from the spec: [sgpt/role.py] is not part of the sources; a
    role is the immutable value of spec section 3. *)
Inductive OutputKind := FreeText | ShellCommand | Code | Description.

Record Role := {
  name : string;
  system_prompt : string;
  expected_output_kind : OutputKind
}.

(** The members of the [DefaultRoles] enumeration that [main] refers to. *)
Inductive DefaultRoles := DEFAULT | SHELL | DESCRIBE_SHELL | CODE.

(** The three handler classes [main] instantiates, with their constructor
    arguments: [ChatHandler(chat_id, role)], [DefaultHandler(role)],
    [ReplHandler(chat_id, role)]. *)
Inductive Handler :=
| ChatHandler (chat_id : option string) (role_class : Role)
| DefaultHandler (role_class : Role)
| ReplHandler (chat_id : option string) (role_class : Role).

(** One call [handler.handle(prompt, model=.., temperature=..,
    top_probability=.., chat_id=.., caching=..)].  A Python [None] prompt or
    chat id is [None]; [DefaultHandler.handle] is called without [chat_id]. *)
Record Call := {
  c_handler : Handler;
  c_prompt : option string;
  c_model : string;
  c_temperature : Q;
  c_top_probability : Q;
  c_chat_id : option string;
  c_caching : bool
}.

(** The validated answers of [Choice(("e", "d", "a", "y"))]. *)
Inductive ShellOption := OptE | OptD | OptA | OptY.

(** Observable events, in the order the program performs them. *)
Inductive Event :=
| EStdinRead (content : string)          (* sys.stdin.read() *)
| EAsk (text : string)                   (* prompt text of input() / typer.prompt *)
| ELine (line : string)                  (* the line input() returned *)
| EChoice (o : ShellOption)              (* the option typer.prompt returned *)
| ERoleGet (role_name : option string)   (* SystemRole.get(name) *)
| ECheckGet (shell describe_shell code : bool) (* DefaultRoles.check_get *)
| EHandle (c : Call) (response : string) (* one completion *)
| EPrint (text : string)                 (* print(...) *)
| ERunCommand (command : string).        (* run_command(...) *)

(** Python exceptions that can leave [main]. *)
Inductive Exn :=
| MissingParameter (param_hint : string)
| BadArgumentUsage (message : string)
| UnknownRoleError (role_name : option string)
| UnboundLocalError (variable : string)
| EOFError                                (* input(): the stream is over *)
| Abort                                   (* typer.prompt: the stream is over *)
| CompletionFailedError.                  (* handle(): the service failed *)

(** Standard input: a terminal on which the user will type the given lines,
    or a pipe holding the given text. *)
Inductive Stdin :=
| Tty (typed : list string)
| Pipe (content : string).

Record World := {
  stdin : Stdin;
  answers : list (option ShellOption);  (* None: the user just pressed Enter *)
  trace : list Event
}.

(** The command line, as [typer] hands it to [main] (the options served by
    callbacks never reach the body and are left out). *)
Record Request := {
  prompt : option string;
  model : string;
  temperature : Q;
  top_probability : Q;
  shell : bool;
  describe_shell : bool;
  code : bool;
  editor : bool;
  cache : bool;
  chat : option string;
  repl : option string;
  role : option string;
  second_ai : bool;
  second_ai_prompt : option string;
  interactive_mode : bool
}.

(** The collaborators of [main] that live outside [app.py].  They are taken
    to answer: a completion that fails, or a handler constructor that
    rejects its arguments, is not part of this model. *)
Record Externals := {
  (** what a handler answers to a call, given everything that happened
      before (history, cache and the remote service are all behind it) *)
  completion : list Event -> Call -> string;
  (** the stored role of that name, [None] when there is none *)
  lookup_role : option string -> option Role;
  (** the system prompt text of each default role *)
  persona : DefaultRoles -> string;
  (** [cfg.get] *)
  cfg_get : string -> string
}.

(** ** The monad *)

Inductive Res (A : Type) :=
| Done (a : A) (w : World)
| Raise (e : Exn) (w : World)
| Spin (w : World).
Arguments Done {A} a w.
Arguments Raise {A} e w.
Arguments Spin {A} w.

Definition M (A : Type) : Type := World -> Res A.

Definition ret {A} (a : A) : M A := fun w => Done a w.

Definition bind {A B} (m : M A) (k : A -> M B) : M B :=
  fun w => match m w with
           | Done a w' => k a w'
           | Raise e w' => Raise e w'
           | Spin w' => Spin w'
           end.

Definition raise {A} (e : Exn) : M A := fun w => Raise e w.

Declare Scope py_scope.
Delimit Scope py_scope with py.
Notation "x <- m ;; k" := (bind m (fun x => k))
  (at level 100, m at next level, right associativity) : py_scope.
Notation "m ;;; k" := (bind m (fun _ => k))
  (at level 100, right associativity) : py_scope.
Local Open Scope py_scope.

Definition world_of {A} (r : Res A) : World :=
  match r with Done _ w | Raise _ w | Spin w => w end.

Definition emit (e : Event) : M unit :=
  fun w => Done tt {| stdin := stdin w; answers := answers w;
                      trace := trace w ++ [e] |}.

(** [when c m]: an [if c: m] statement without [else]. *)
Definition when (c : bool) (m : M unit) : M unit := if c then m else ret tt.

(** [while cond: body] over the loop-carried variables [s]. *)
Fixpoint while {St} (fuel : nat) (cond : St -> bool) (body : St -> M St)
    (s : St) : M St :=
  fun w =>
    if cond s then
      match fuel with
      | O => Spin w
      | S fuel' =>
          match body s w with
          | Done s' w' => while fuel' cond body s' w'
          | Raise e w' => Raise e w'
          | Spin w' => Spin w'
          end
      end
    else Done s w.

(** ** Python values *)

(** Truth value of an [Optional[str]]: [None] and [''] are false. *)
Definition truthy (o : option string) : bool :=
  match o with
  | None => false
  | Some s => negb (String.eqb s "")
  end.

(** [x is not None] *)
Definition is_not_None {A} (o : option A) : bool :=
  match o with Some _ => true | None => false end.

(** [prompt or ''] *)
Definition or_empty (o : option string) : string :=
  if truthy o then default "" o else "".

(** [sum((shell, describe_shell, code))] *)
Definition mode_count (r : Request) : nat :=
  Nat.b2n (shell r) + Nat.b2n (describe_shell r) + Nat.b2n (code r).

(** ** Input and output primitives *)

Definition is_tty (i : Stdin) : bool :=
  match i with Tty _ => true | Pipe _ => false end.

(** [sys.stdin.isatty()] *)
Definition isatty : M bool := fun w => Done (is_tty (stdin w)) w.

(** The text up to the first line feed, and what follows that line feed. *)
Fixpoint read_line (s : string) : string * string :=
  match s with
  | EmptyString => (EmptyString, EmptyString)
  | String c rest =>
      if Ascii.eqb c "010"%char then (EmptyString, rest)
      else let '(l, rest') := read_line rest in (String c l, rest')
  end.

(** [sys.stdin.read()]: everything up to the end of the stream. *)
Definition stdin_read : M string :=
  fun w =>
    let content := match stdin w with
                   | Pipe s => s
                   | Tty ls => String.concat "" (map (fun l => l +:+ LF) ls)
                   end in
    let rest := match stdin w with Pipe _ => Pipe "" | Tty _ => Tty [] end in
    Done content {| stdin := rest; answers := answers w;
                    trace := trace w ++ [EStdinRead content] |}.

(** [input(text)]: shows [text], returns the next line without its line
    feed, raises [EOFError] when nothing is left to read. *)
Definition input (text : string) : M string :=
  fun w =>
    let shown := trace w ++ [EAsk text] in
    match stdin w with
    | Tty [] | Pipe EmptyString =>
        Raise EOFError {| stdin := stdin w; answers := answers w;
                          trace := shown |}
    | Tty (l :: ls) =>
        Done l {| stdin := Tty ls; answers := answers w;
                  trace := shown ++ [ELine l] |}
    | Pipe s =>
        let '(l, rest) := read_line s in
        Done l {| stdin := Pipe rest; answers := answers w;
                  trace := shown ++ [ELine l] |}
    end.

(** [typer.prompt(text, type=Choice(..), default=d)]: shows [text] and
    returns the validated choice, [d] on an empty answer; raises [Abort]
    when the terminal gives no answer any more. *)
Definition typer_prompt (text : string) (d : ShellOption) : M ShellOption :=
  fun w =>
    let shown := trace w ++ [EAsk text] in
    match answers w with
    | [] => Raise Abort {| stdin := stdin w; answers := []; trace := shown |}
    | a :: rest =>
        let o := default d a in
        Done o {| stdin := stdin w; answers := rest;
                  trace := shown ++ [EChoice o] |}
    end.

Definition print (text : string) : M unit := emit (EPrint text).

Definition run_command (command : string) : M unit :=
  emit (ERunCommand command).

(** Reading a local variable that may not have been assigned. *)
Definition read_local {A} (variable : string) (v : option A) : M A :=
  match v with
  | Some a => ret a
  | None => raise (UnboundLocalError variable)
  end.

(** The call record of [h.handle(p, model=model, temperature=temperature,
    top_probability=top_probability, chat_id=chat_id, caching=caching)]. *)
Definition call_of (h : Handler) (p : option string) (r : Request)
    (chat_id : option string) (caching : bool) : Call :=
  {| c_handler := h; c_prompt := p; c_model := model r;
     c_temperature := temperature r;
     c_top_probability := top_probability r;
     c_chat_id := chat_id; c_caching := caching |}.

Section App.

Context (X : Externals).

(** [handler.handle(prompt, ...)]: one completion, answered by the
    collaborators and recorded in the trace.  The completion that fails is
    in [handle_f], below. *)
Definition handle (h : Handler) (p : option string) (r : Request)
    (chat_id : option string) (caching : bool) : M string :=
  fun w =>
    let c := call_of h p r chat_id caching in
    let answer := completion X (trace w) c in
    Done answer {| stdin := stdin w; answers := answers w;
                   trace := trace w ++ [EHandle c answer] |}.

(** [SystemRole.get(name)]: looks the role up, fails when it does not
    exist. *)
Definition SystemRole_get (role_name : option string) : M Role :=
  emit (ERoleGet role_name) ;;;
  match lookup_role X role_name with
  | Some ro => ret ro
  | None => raise (UnknownRoleError role_name)
  end.

(** Modelled from the spec: [DefaultRoles] of the absent [sgpt/role.py];
    each default role has the output kind of its mode (spec sections 3 and
    4.1). *)
Definition get_role (d : DefaultRoles) : Role :=
  match d with
  | DEFAULT => {| name := "default"; system_prompt := persona X DEFAULT;
                  expected_output_kind := FreeText |}
  | SHELL => {| name := "shell"; system_prompt := persona X SHELL;
                expected_output_kind := ShellCommand |}
  | DESCRIBE_SHELL =>
      {| name := "describe_shell"; system_prompt := persona X DESCRIBE_SHELL;
         expected_output_kind := Description |}
  | CODE => {| name := "code"; system_prompt := persona X CODE;
               expected_output_kind := Code |}
  end.

Definition conflicting_modes : string :=
  "Only one of --shell, --describe-shell, and --code options can be used at a time.".

(** Modelled from the spec: [DefaultRoles.check_get] of the absent
    [sgpt/role.py] (spec section 4.1): the role is derived from the mode
    flags and the derivation fails when more than one flag is set. *)
Definition check_get (sh de co : bool) : M Role :=
  emit (ECheckGet sh de co) ;;;
  if (1 <? Nat.b2n sh + Nat.b2n de + Nat.b2n co)%nat
  then raise (BadArgumentUsage conflicting_modes)
  else ret (get_role (if sh then SHELL
                      else if de then DESCRIBE_SHELL
                      else if co then CODE else DEFAULT)).

(** The role [check_get] derives for a request. *)
Definition derived_role (r : Request) : Role :=
  get_role (if shell r then SHELL
            else if describe_shell r then DESCRIBE_SHELL
            else if code r then CODE else DEFAULT).

(** Lines 14-22. *)
Definition handle_second_ai (chat_handler : Handler)
    (second_ai_prompt' : option string) (r : Request)
    (chat_id : option string) (caching : bool) : M unit :=
  handle chat_handler second_ai_prompt' r chat_id caching ;;;
  ret tt.

(** Lines 24-42. *)
Definition handle_user_input (chat_handler : Handler) (user_input : string)
    (r : Request) (chat_id : option string) (caching : bool) : M unit :=
  user_response <- handle chat_handler (Some user_input) r chat_id caching ;;
  print ("You: " +:+ user_input) ;;;
  print ("AI: " +:+ user_response).

(** Lines 158-161: the prompt the rest of [main] works with. *)
Definition read_prompt (r : Request) : M (bool * option string) :=
  tty <- isatty ;;
  let stdin_passed := negb tty in
  if stdin_passed && negb (truthy (repl r)) then
    piped <- stdin_read ;;
    ret (stdin_passed, Some (piped +:+ LF +:+ LF +:+ or_empty (prompt r)))
  else ret (stdin_passed, prompt r).

(** Lines 163-176: the interactive loop. *)
Definition interactive_loop (fuel : nat) (chat_handler : Handler)
    (r : Request) : M unit :=
  while fuel (fun _ => true)
    (fun _ =>
       user_input <- input "You: " ;;
       handle_user_input chat_handler user_input r (chat r) (cache r))
    tt.

(** Modelled from the spec: [ReplHandler.handle] of the absent
    [sgpt/handlers/repl_handler.py] (spec section 4.5): an unbounded loop
    that reads one prompt per iteration, calls [handle] with the fixed chat
    id and role, and prints the exchange; it has no exit condition.  The
    spec does not say what becomes of the prompt argument: it is not used
    here. *)
Definition ReplHandler_handle (fuel : nat) (h : Handler)
    (init_prompt : option string) (r : Request) (chat_id : option string)
    (caching : bool) : M unit :=
  while fuel (fun _ => true)
    (fun _ =>
       user_prompt <- input "" ;;
       answer <- handle h (Some user_prompt) r chat_id caching ;;
       print answer)
    tt.

(** Lines 224-248: one round of the dual loop over the loop-carried
    variables [(prompt, second_ai_prompt)]. *)
Definition dual_round (chat_handler second_ai_handler : Handler)
    (r : Request) (vars : option string * option string)
    : M (option string * option string) :=
  let '(prompt', second_ai_prompt') := vars in
  first_ai_response <- handle chat_handler prompt' r (chat r) (cache r) ;;
  print ("First AI: " +:+ first_ai_response) ;;;
  second_ai_response <-
    handle second_ai_handler second_ai_prompt' r (Some "second_ai") (cache r) ;;
  print ("Second AI: " +:+ second_ai_response) ;;;
  ret (Some first_ai_response, Some second_ai_response).

Definition dual_loop (fuel : nat) (chat_handler second_ai_handler : Handler)
    (r : Request) (vars : option string * option string)
    : M (option string * option string) :=
  while fuel (fun _ => true)
    (dual_round chat_handler second_ai_handler r) vars.

Definition confirm_text : string := "[E]xecute, [D]escribe, [A]bort".

(** Lines 258-276: one round of the confirmation loop. *)
Definition shell_round (r : Request) (full_completion : option string)
    : M unit :=
  option <- typer_prompt confirm_text
              (if String.eqb (cfg_get X "DEFAULT_EXECUTE_SHELL_CMD") "true"
               then OptE else OptA) ;;
  match option with
  | OptE | OptY =>
      command <- read_local "full_completion" full_completion ;;
      run_command command
  | OptD =>
      command <- read_local "full_completion" full_completion ;;
      handle (DefaultHandler (get_role DESCRIBE_SHELL)) (Some command) r
        None (cache r) ;;;
      ret tt
  | OptA => ret tt
  end.

Definition shell_loop (fuel : nat) (r : Request) (stdin_passed : bool)
    (full_completion : option string) : M unit :=
  while fuel (fun _ => shell r && negb stdin_passed)
    (fun _ => shell_round r full_completion) tt.

(** Lines 192-196: the role the request is served with. *)
Definition resolve_role (r : Request) : M Role :=
  if negb (truthy (role r))
  then check_get (shell r) (describe_shell r) (code r)
  else SystemRole_get (role r).

(** Lines 163-256: what [main] does between reading the prompt and the
    confirmation loop.  The result is [stdin_passed] and the local
    [full_completion], [None] while it is unassigned. *)
Definition serve (fuel : nat) (r : Request) (stdin_passed : bool)
    (prompt' : option string) : M (bool * option string) :=
  when (interactive_mode r)
    (role0 <- SystemRole_get (role r) ;;
     interactive_loop fuel (ChatHandler (chat r) role0) r) ;;;
  when (negb (truthy prompt') && negb (editor r) && negb (truthy (repl r)))
    (raise (MissingParameter "PROMPT")) ;;;
  when (1 <? mode_count r)%nat
    (raise (BadArgumentUsage conflicting_modes)) ;;;
  when (truthy (chat r) && truthy (repl r))
    (raise (BadArgumentUsage
              "--chat and --repl options cannot be used together.")) ;;;
  when (editor r && stdin_passed)
    (raise (BadArgumentUsage
              "--editor option cannot be used with stdin input.")) ;;;
  role_class <- resolve_role r ;;
  when (truthy (repl r))
    (ReplHandler_handle fuel (ReplHandler (repl r) role_class) prompt' r
       (repl r) (cache r)) ;;;
  if truthy (chat r) then
    if second_ai r && is_not_None (second_ai_prompt r) then
      handle_second_ai (ChatHandler (chat r) role_class)
        (second_ai_prompt r) r (chat r) (cache r) ;;;
      ret (stdin_passed, None)
    else
      dual_loop fuel (ChatHandler (chat r) role_class)
        (ChatHandler (Some "second_ai") role_class) r
        (prompt', second_ai_prompt r) ;;;
      ret (stdin_passed, None)
  else
    full_completion <-
      handle (DefaultHandler role_class) prompt' r None (cache r) ;;
    ret (stdin_passed, Some full_completion).

(** Lines 158-256: everything before the confirmation loop. *)
Definition before_shell_loop (fuel : nat) (r : Request)
    : M (bool * option string) :=
  locals <- read_prompt r ;;
  let '(stdin_passed, prompt') := locals in
  serve fuel r stdin_passed prompt'.

(** Lines 157-276. *)
Definition main (fuel : nat) (r : Request) : M unit :=
  locals <- before_shell_loop fuel r ;;
  let '(stdin_passed, full_completion) := locals in
  shell_loop fuel r stdin_passed full_completion.

End App.

Arguments confirm_text : simpl never.
Arguments truthy : simpl never.
Arguments or_empty : simpl never.
Arguments mode_count : simpl never.
Arguments LF : simpl never.
Arguments conflicting_modes : simpl never.

(** ** Completions that fail

    The embedding above takes every completion to answer.  [app.py] wraps no
    call of [handle] in [try]: when the completion service fails, the
    exception leaves [main] from wherever the call was made.  The
    definitions below are the same functions with that path: [fails tr c]
    tells whether the call [c], made after the trace [tr], fails.  With a
    service that never fails they are the definitions above
    ([main_f_answers]). *)

Section Failing.

Context (X : Externals) (fails : list Event -> Call -> bool).

(** Modelled from the spec: the failure of [handler.handle(prompt, ...)]
    (spec sections 4.4 and 7): a failed completion propagates as
    [CompletionFailedError] and records nothing; a completion that is
    answered is recorded in the trace with its answer. *)
Definition handle_f (h : Handler) (p : option string) (r : Request)
    (chat_id : option string) (caching : bool) : M string :=
  fun w =>
    let c := call_of h p r chat_id caching in
    if fails (trace w) c then Raise CompletionFailedError w
    else
      let answer := completion X (trace w) c in
      Done answer {| stdin := stdin w; answers := answers w;
                     trace := trace w ++ [EHandle c answer] |}.

(** Lines 14-22. *)
Definition handle_second_ai_f (chat_handler : Handler)
    (second_ai_prompt' : option string) (r : Request)
    (chat_id : option string) (caching : bool) : M unit :=
  handle_f chat_handler second_ai_prompt' r chat_id caching ;;;
  ret tt.

(** Lines 24-42. *)
Definition handle_user_input_f (chat_handler : Handler)
    (user_input : string) (r : Request) (chat_id : option string)
    (caching : bool) : M unit :=
  user_response <-
    handle_f chat_handler (Some user_input) r chat_id caching ;;
  print ("You: " +:+ user_input) ;;;
  print ("AI: " +:+ user_response).

(** Lines 166-176. *)
Definition interactive_loop_f (fuel : nat) (chat_handler : Handler)
    (r : Request) : M unit :=
  while fuel (fun _ => true)
    (fun _ =>
       user_input <- input "You: " ;;
       handle_user_input_f chat_handler user_input r (chat r) (cache r))
    tt.

(** Modelled from the spec: [ReplHandler.handle], as above. *)
Definition ReplHandler_handle_f (fuel : nat) (h : Handler)
    (init_prompt : option string) (r : Request) (chat_id : option string)
    (caching : bool) : M unit :=
  while fuel (fun _ => true)
    (fun _ =>
       user_prompt <- input "" ;;
       answer <- handle_f h (Some user_prompt) r chat_id caching ;;
       print answer)
    tt.

(** Lines 224-248. *)
Definition dual_round_f (chat_handler second_ai_handler : Handler)
    (r : Request) (vars : option string * option string)
    : M (option string * option string) :=
  let '(prompt', second_ai_prompt') := vars in
  first_ai_response <- handle_f chat_handler prompt' r (chat r) (cache r) ;;
  print ("First AI: " +:+ first_ai_response) ;;;
  second_ai_response <-
    handle_f second_ai_handler second_ai_prompt' r (Some "second_ai")
      (cache r) ;;
  print ("Second AI: " +:+ second_ai_response) ;;;
  ret (Some first_ai_response, Some second_ai_response).

Definition dual_loop_f (fuel : nat)
    (chat_handler second_ai_handler : Handler) (r : Request)
    (vars : option string * option string)
    : M (option string * option string) :=
  while fuel (fun _ => true)
    (dual_round_f chat_handler second_ai_handler r) vars.

(** Lines 258-276. *)
Definition shell_round_f (r : Request) (full_completion : option string)
    : M unit :=
  option <- typer_prompt confirm_text
              (if String.eqb (cfg_get X "DEFAULT_EXECUTE_SHELL_CMD") "true"
               then OptE else OptA) ;;
  match option with
  | OptE | OptY =>
      command <- read_local "full_completion" full_completion ;;
      run_command command
  | OptD =>
      command <- read_local "full_completion" full_completion ;;
      handle_f (DefaultHandler (get_role X DESCRIBE_SHELL)) (Some command) r
        None (cache r) ;;;
      ret tt
  | OptA => ret tt
  end.

Definition shell_loop_f (fuel : nat) (r : Request) (stdin_passed : bool)
    (full_completion : option string) : M unit :=
  while fuel (fun _ => shell r && negb stdin_passed)
    (fun _ => shell_round_f r full_completion) tt.

(** Lines 163-256. *)
Definition serve_f (fuel : nat) (r : Request) (stdin_passed : bool)
    (prompt' : option string) : M (bool * option string) :=
  when (interactive_mode r)
    (role0 <- SystemRole_get X (role r) ;;
     interactive_loop_f fuel (ChatHandler (chat r) role0) r) ;;;
  when (negb (truthy prompt') && negb (editor r) && negb (truthy (repl r)))
    (raise (MissingParameter "PROMPT")) ;;;
  when (1 <? mode_count r)%nat
    (raise (BadArgumentUsage conflicting_modes)) ;;;
  when (truthy (chat r) && truthy (repl r))
    (raise (BadArgumentUsage
              "--chat and --repl options cannot be used together.")) ;;;
  when (editor r && stdin_passed)
    (raise (BadArgumentUsage
              "--editor option cannot be used with stdin input.")) ;;;
  role_class <- resolve_role X r ;;
  when (truthy (repl r))
    (ReplHandler_handle_f fuel (ReplHandler (repl r) role_class) prompt' r
       (repl r) (cache r)) ;;;
  if truthy (chat r) then
    if second_ai r && is_not_None (second_ai_prompt r) then
      handle_second_ai_f (ChatHandler (chat r) role_class)
        (second_ai_prompt r) r (chat r) (cache r) ;;;
      ret (stdin_passed, None)
    else
      dual_loop_f fuel (ChatHandler (chat r) role_class)
        (ChatHandler (Some "second_ai") role_class) r
        (prompt', second_ai_prompt r) ;;;
      ret (stdin_passed, None)
  else
    full_completion <-
      handle_f (DefaultHandler role_class) prompt' r None (cache r) ;;
    ret (stdin_passed, Some full_completion).

(** Lines 157-276. *)
Definition main_f (fuel : nat) (r : Request) : M unit :=
  locals <- (locals <- read_prompt r ;;
             let '(stdin_passed, prompt') := locals in
             serve_f fuel r stdin_passed prompt') ;;
  let '(stdin_passed, full_completion) := locals in
  shell_loop_f fuel r stdin_passed full_completion.

End Failing.

(** A service that answers every call. *)
Definition never_fails (fails : list Event -> Call -> bool) : Prop :=
  forall tr c, fails tr c = false.

Definition no_faults : list Event -> Call -> bool := fun _ _ => false.

(** ** Reading a run *)

(** The world a run starts in: nothing has happened yet. *)
Definition boot (i : Stdin) (a : list (option ShellOption)) : World :=
  {| stdin := i; answers := a; trace := [] |}.

(** How a run ended, without the world it ended in. *)
Inductive Outcome := Returned | Raised (e : Exn) | Running.

Definition outcome {A} (r : Res A) : Outcome :=
  match r with
  | Done _ _ => Returned
  | Raise e _ => Raised e
  | Spin _ => Running
  end.

(** The completions of a trace, in order. *)
Definition calls (tr : list Event) : list Call :=
  omap (fun e => match e with EHandle c _ => Some c | _ => None end) tr.

(** The prompts of the completions of a trace. *)
Definition prompts (tr : list Event) : list (option string) :=
  map c_prompt (calls tr).

(** What each completion of a trace was: the chat id it is persisted
    under, and its prompt. *)
Definition exchanges (tr : list Event)
    : list (option string * option string) :=
  map (fun c => (c_chat_id c, c_prompt c)) (calls tr).

(** The completion the Describe branch asks for. *)
Definition describe_call (X : Externals) (r : Request) (command : string)
    : Call :=
  call_of (DefaultHandler (get_role X DESCRIBE_SHELL)) (Some command) r None
    (cache r).

(** The role resolutions of a trace. *)
Definition is_resolution (e : Event) : bool :=
  match e with ERoleGet _ | ECheckGet _ _ _ => true | _ => false end.

(** The confirmation loop has been entered when its prompt has been shown. *)
Definition is_confirm (e : Event) : bool :=
  match e with EAsk t => String.eqb t confirm_text | _ => false end.

Definition shell_loop_entered (w : World) : bool :=
  existsb is_confirm (trace w).

(** Modelled from the spec: the persistence step of the absent handlers
    (spec section 4.4, step 6): an exchange, the prompt and the answer, is
    appended to the conversation of the [chat_id] of the call, and is not
    persisted at all when [chat_id] is absent. *)
Definition persist (store : gmap string (list (option string * string)))
    (e : Event) : gmap string (list (option string * string)) :=
  match e with
  | EHandle c answer =>
      match c_chat_id c with
      | Some k => <[k := default [] (store !! k) ++ [(c_prompt c, answer)]]> store
      | None => store
      end
  | _ => store
  end.

Definition conversations (tr : list Event)
    : gmap string (list (option string * string)) :=
  foldl persist ∅ tr.

(** Whether [serve] gets to its end: interactive mode is off, every guard
    passes, the role exists, and neither the REPL nor the dual loop is
    entered.  [has_prompt] is the truth value of the prompt [serve] is
    given. *)
Definition passes (X : Externals) (r : Request)
    (stdin_passed has_prompt : bool) : bool :=
  negb (interactive_mode r)
  && (has_prompt || editor r || truthy (repl r))
  && (mode_count r <=? 1)%nat
  && negb (truthy (chat r) && truthy (repl r))
  && negb (editor r && stdin_passed)
  && (negb (truthy (role r)) || is_not_None (lookup_role X (role r)))
  && negb (truthy (repl r))
  && (negb (truthy (chat r))
      || (second_ai r && is_not_None (second_ai_prompt r))).

(** Whether control gets to the [while] statement on line 258, for a
    request [r] and [piped] standard input (a pipe always yields a
    prompt). *)
Definition reaches_shell_loop (X : Externals) (r : Request) (piped : bool)
    : bool :=
  passes X r piped (piped || truthy (prompt r)).

(** ** Predicates on computations *)

(** A computation that has no normal exit. *)
Definition never_returns {A} (m : M A) : Prop :=
  forall w a w', m w <> Done a w'.

(** [emits Q m]: whatever [m] does, it only appends events to the trace, and
    every event it appends satisfies [Q]. *)
Definition emits (Q : Event -> Prop) {A} (m : M A) : Prop :=
  forall w, exists evs,
    trace (world_of (m w)) = trace w ++ evs /\ Forall Q evs.

(** Events other than the confirmation prompt. *)
Definition quiet (e : Event) : Prop := is_confirm e = false.

(** A computation whose first event is always [e]. *)
Definition starts_with (e : Event) {A} (m : M A) : Prop :=
  forall w, exists evs, trace (world_of (m w)) = trace w ++ e :: evs.

(** ** Further readings of a run *)

(** [raises P m]: every exception that leaves [m] satisfies [P]. *)
Definition raises (P : Exn -> Prop) {A} (m : M A) : Prop :=
  forall w e w', m w = Raise e w' -> P e.

Definition chat_and_repl : string :=
  "--chat and --repl options cannot be used together.".

Definition editor_and_stdin : string :=
  "--editor option cannot be used with stdin input.".

(** The prompt [main] works with after lines 158-161, for a request and a
    standard input. *)
Definition effective_prompt (r : Request) (i : Stdin) : option string :=
  match i with
  | Tty _ => prompt r
  | Pipe content =>
      if truthy (repl r) then prompt r
      else Some (content +:+ LF +:+ LF +:+ or_empty (prompt r))
  end.

(** The world after lines 158-161: a pipe has been read to its end unless
    there is a repl id. *)
Definition after_read (r : Request) (w : World) : World :=
  match stdin w with
  | Tty _ => w
  | Pipe content =>
      if truthy (repl r) then w
      else {| stdin := Pipe ""; answers := answers w;
              trace := trace w ++ [EStdinRead content] |}
  end.

(** Exceptions other than the missing-parameter error. *)
Definition not_missing (e : Exn) : Prop :=
  forall hint, e <> MissingParameter hint.

(** The completions of a trace with their answers, in order. *)
Definition handles (tr : list Event) : list (Call * string) :=
  omap (fun e => match e with EHandle c a => Some (c, a) | _ => None end) tr.

(** What a trace printed, in order. *)
Definition printed (tr : list Event) : list string :=
  omap (fun e => match e with EPrint t => Some t | _ => None end) tr.

(** The two lines [handle_user_input] prints for an exchange. *)
Definition echo (exchange : Call * string) : list string :=
  ["You: " +:+ default "" (c_prompt exchange.1); "AI: " +:+ exchange.2].

(** Which handler each completion of a trace went to, and under which chat
    id. *)
Definition addressees (tr : list Event) : list (Handler * option string) :=
  map (fun c => (c_handler c, c_chat_id c)) (calls tr).

(** The request with the two second-AI options at their defaults. *)
Definition without_second_ai (r : Request) : Request :=
  {| prompt := prompt r; model := model r; temperature := temperature r;
     top_probability := top_probability r; shell := shell r;
     describe_shell := describe_shell r; code := code r; editor := editor r;
     cache := cache r; chat := chat r; repl := repl r; role := role r;
     second_ai := false; second_ai_prompt := None;
     interactive_mode := interactive_mode r |}.

(** The commands a trace ran, in order. *)
Definition run_commands (tr : list Event) : list string :=
  omap (fun e => match e with ERunCommand c => Some c | _ => None end) tr.

(** The [default] of the confirmation prompt (line 262). *)
Definition default_option (X : Externals) : ShellOption :=
  if String.eqb (cfg_get X "DEFAULT_EXECUTE_SHELL_CMD") "true"
  then OptE else OptA.

(** Whether an answer to the confirmation prompt takes the Execute branch,
    the Describe branch. *)
Definition executes (d : ShellOption) (a : option ShellOption) : bool :=
  match default d a with OptE | OptY => true | _ => false end.

Definition describes (d : ShellOption) (a : option ShellOption) : bool :=
  match default d a with OptD => true | _ => false end.

Definition how_many {A} (f : A -> bool) (l : list A) : nat :=
  length (List.filter f l).

(** What one round of the confirmation loop adds to the trace, for the
    option chosen, the command at hand and the trace so far. *)
Definition round_events (X : Externals) (r : Request) (command : string)
    (tr : list Event) (o : ShellOption) : list Event :=
  [EAsk confirm_text; EChoice o] ++
  match o with
  | OptE | OptY => [ERunCommand command]
  | OptD =>
      [EHandle (describe_call X r command)
         (completion X (tr ++ [EAsk confirm_text; EChoice o])
            (describe_call X r command))]
  | OptA => []
  end.

(** Events that run no command other than [fc]. *)
Definition runs_only (fc : option string) (e : Event) : Prop :=
  forall command, e = ERunCommand command -> fc = Some command.

(** The role lines 192-196 settle on: the stored role of an explicit role
    name, whatever the mode flags, and otherwise the role of the mode. *)
Definition resolved_role (X : Externals) (r : Request) : option Role :=
  if truthy (role r) then lookup_role X (role r)
  else Some (derived_role X r).

(** Exceptions other than an unassigned local. *)
Definition not_unbound (e : Exn) : Prop :=
  forall variable, e <> UnboundLocalError variable.

Definition is_stdin_read (e : Event) : bool :=
  match e with EStdinRead _ => true | _ => false end.

(** The lines [input] delivers from a piped text before the end of the
    stream: the text cut at its line feeds, the last line with or without
    one. *)
Fixpoint lines_from (s : string) : list string :=
  match s with
  | EmptyString => []
  | String c rest =>
      if Ascii.eqb c "010"%char then EmptyString :: lines_from rest
      else match lines_from rest with
           | [] => [String c EmptyString]
           | l :: ls => String c l :: ls
           end
  end.

(** The lines standard input still holds. *)
Definition lines_of (i : Stdin) : list string :=
  match i with
  | Tty typed => typed
  | Pipe content => lines_from content
  end.

(** Standard input after [input] has taken a line from it. *)
Definition after_line (i : Stdin) : Stdin :=
  match i with
  | Tty typed => Tty (tail typed)
  | Pipe content => Pipe (read_line content).2
  end.

(** What a trace wrote for the user to see, in order: the texts [input] and
    [typer.prompt] show, and the lines of [print]. *)
Definition shown (tr : list Event) : list string :=
  omap (fun e => match e with
                 | EAsk t | EPrint t => Some t
                 | _ => None
                 end) tr.

(** What one round of the interactive loop shows for an exchange. *)
Definition turn (exchange : Call * string) : list string :=
  "You: " :: echo exchange.

(** The request as interactive mode sees it: the prompt argument, the mode
    flags, the editor flag and the second-AI options at their defaults. *)
Definition interactive_view (r : Request) : Request :=
  {| prompt := None; model := model r; temperature := temperature r;
     top_probability := top_probability r; shell := false;
     describe_shell := false; code := false; editor := false;
     cache := cache r; chat := chat r; repl := repl r; role := role r;
     second_ai := false; second_ai_prompt := None;
     interactive_mode := interactive_mode r |}.

(** The prompt lines 160-161 build from piped text. *)
Definition piped_prompt (r : Request) (content : string) : option string :=
  Some (content +:+ LF +:+ LF +:+ default "" (prompt r)).

(** The one-shot path of lines 209-220. *)
Definition is_one_shot (r : Request) : bool :=
  truthy (chat r) && (second_ai r && is_not_None (second_ai_prompt r)).

(** The two completions of one round of the dual loop. *)
Definition dual_pair (r : Request) (ro : Role)
    : list (Handler * option string) :=
  [(ChatHandler (chat r) ro, chat r);
   (ChatHandler (Some "second_ai") ro, Some "second_ai")].

(** The event a role resolution leaves in the trace (lines 192-196). *)
Definition role_event (r : Request) : Event :=
  if truthy (role r) then ERoleGet (role r)
  else ECheckGet (shell r) (describe_shell r) (code r).

(** Events other than a completion. *)
Definition silent (e : Event) : Prop := calls [e] = [].

(** [sends_first target m]: the first completion [m] requests, if it
    requests any, is for the prompt [target]. *)
Definition sends_first (target : option string) {A} (m : M A) : Prop :=
  forall w, exists sent,
    prompts (trace (world_of (m w))) = prompts (trace w) ++ sent /\
    forall p rest, sent = p :: rest -> p = target.

(** ** Concrete instances, for the examples *)

(** A registry with one custom role, and handlers that answer with the
    chat id they persist under and the prompt they were given. *)
Definition poet : Role :=
  {| name := "poet"; system_prompt := "You write verse.";
     expected_output_kind := FreeText |}.

Definition demo : Externals := {|
  completion := fun _ c =>
    default "-" (c_chat_id c) +:+ "<" +:+ default "None" (c_prompt c) +:+ ">";
  lookup_role := fun n =>
    match n with
    | Some s => if String.eqb s "poet" then Some poet else None
    | None => None
    end;
  persona := fun _ => "";
  cfg_get := fun _ => "false"
|}.

(** [sgpt] with no argument at all. *)
Definition bare : Request := {|
  prompt := None; model := "gpt-3.5-turbo"; temperature := 0.1;
  top_probability := 1; shell := false; describe_shell := false;
  code := false; editor := false; cache := true; chat := None; repl := None;
  role := None; second_ai := false; second_ai_prompt := None;
  interactive_mode := false
|}.

Definition with_prompt (p : string) (r : Request) : Request :=
  {| prompt := Some p; model := model r; temperature := temperature r;
     top_probability := top_probability r; shell := shell r;
     describe_shell := describe_shell r; code := code r; editor := editor r;
     cache := cache r; chat := chat r; repl := repl r; role := role r;
     second_ai := second_ai r; second_ai_prompt := second_ai_prompt r;
     interactive_mode := interactive_mode r |}.

Definition with_shell (r : Request) : Request :=
  {| prompt := prompt r; model := model r; temperature := temperature r;
     top_probability := top_probability r; shell := true;
     describe_shell := describe_shell r; code := code r; editor := editor r;
     cache := cache r; chat := chat r; repl := repl r; role := role r;
     second_ai := second_ai r; second_ai_prompt := second_ai_prompt r;
     interactive_mode := interactive_mode r |}.

Definition with_code (r : Request) : Request :=
  {| prompt := prompt r; model := model r; temperature := temperature r;
     top_probability := top_probability r; shell := shell r;
     describe_shell := describe_shell r; code := true; editor := editor r;
     cache := cache r; chat := chat r; repl := repl r; role := role r;
     second_ai := second_ai r; second_ai_prompt := second_ai_prompt r;
     interactive_mode := interactive_mode r |}.

Definition with_chat (id : string) (r : Request) : Request :=
  {| prompt := prompt r; model := model r; temperature := temperature r;
     top_probability := top_probability r; shell := shell r;
     describe_shell := describe_shell r; code := code r; editor := editor r;
     cache := cache r; chat := Some id; repl := repl r; role := role r;
     second_ai := second_ai r; second_ai_prompt := second_ai_prompt r;
     interactive_mode := interactive_mode r |}.

Definition with_role (n : string) (r : Request) : Request :=
  {| prompt := prompt r; model := model r; temperature := temperature r;
     top_probability := top_probability r; shell := shell r;
     describe_shell := describe_shell r; code := code r; editor := editor r;
     cache := cache r; chat := chat r; repl := repl r; role := Some n;
     second_ai := second_ai r; second_ai_prompt := second_ai_prompt r;
     interactive_mode := interactive_mode r |}.

Definition with_second_ai (p : option string) (r : Request) : Request :=
  {| prompt := prompt r; model := model r; temperature := temperature r;
     top_probability := top_probability r; shell := shell r;
     describe_shell := describe_shell r; code := code r; editor := editor r;
     cache := cache r; chat := chat r; repl := repl r; role := role r;
     second_ai := true; second_ai_prompt := p;
     interactive_mode := interactive_mode r |}.

Definition with_interactive (r : Request) : Request :=
  {| prompt := prompt r; model := model r; temperature := temperature r;
     top_probability := top_probability r; shell := shell r;
     describe_shell := describe_shell r; code := code r; editor := editor r;
     cache := cache r; chat := chat r; repl := repl r; role := role r;
     second_ai := second_ai r; second_ai_prompt := second_ai_prompt r;
     interactive_mode := true |}.

(** [sgpt --chat c1 --second-ai --second-ai-prompt yo hi] *)
Definition one_shot : Request :=
  with_second_ai (Some "yo") (with_chat "c1" (with_prompt "hi" bare)).

(** [sgpt --chat c1 hi] *)
Definition ping_pong : Request := with_chat "c1" (with_prompt "hi" bare).

(** [sgpt --shell "list files"] *)
Definition shell_request : Request :=
  with_shell (with_prompt "list files" bare).

(** [sgpt --shell --chat c1 --second-ai --second-ai-prompt yo hi] *)
Definition one_shot_shell : Request := with_shell one_shot.

Definition with_repl (id : string) (r : Request) : Request :=
  {| prompt := prompt r; model := model r; temperature := temperature r;
     top_probability := top_probability r; shell := shell r;
     describe_shell := describe_shell r; code := code r; editor := editor r;
     cache := cache r; chat := chat r; repl := Some id; role := role r;
     second_ai := second_ai r; second_ai_prompt := second_ai_prompt r;
     interactive_mode := interactive_mode r |}.

Definition with_editor (r : Request) : Request :=
  {| prompt := prompt r; model := model r; temperature := temperature r;
     top_probability := top_probability r; shell := shell r;
     describe_shell := describe_shell r; code := code r; editor := true;
     cache := cache r; chat := chat r; repl := repl r; role := role r;
     second_ai := second_ai r; second_ai_prompt := second_ai_prompt r;
     interactive_mode := interactive_mode r |}.

(** [sgpt --chat c1 --repl r1 hi] *)
Definition chat_repl : Request :=
  with_repl "r1" (with_chat "c1" (with_prompt "hi" bare)).

(** [sgpt --interactive --role poet] *)
Definition interactive_poet : Request :=
  with_interactive (with_role "poet" bare).

(** * Properties *)

(** ** The monad and its loops *)

Lemma or_empty_default (o : option string) : or_empty o = default "" o.
Proof. destruct o as [[|c s]|]; reflexivity. Qed.

Lemma while_unfold {St} fuel cond (body : St -> M St) s w :
  while (S fuel) cond body s w =
  if cond s then
    match body s w with
    | Done s' w' => while fuel cond body s' w'
    | Raise e w' => Raise e w'
    | Spin w' => Spin w'
    end
  else Done s w.
Proof. reflexivity. Qed.

Lemma while_true_never_returns {St} fuel (body : St -> M St) s :
  never_returns (while fuel (fun _ => true) body s).
Proof.
  revert s. induction fuel as [|fuel IH]; intros s w a w'; simpl.
  - discriminate.
  - destruct (body s w) as [s1 w1|e w1|w1]; [apply IH|discriminate..].
Qed.

Lemma bind_never_returns_l {A B} (m : M A) (k : A -> M B) :
  never_returns m -> never_returns (bind m k).
Proof.
  intros Hm w b w'. unfold bind. destruct (m w) as [a w1|e w1|w1] eqn:E.
  - by apply Hm in E.
  - discriminate.
  - discriminate.
Qed.

Lemma bind_never_returns_r {A B} (m : M A) (k : A -> M B) :
  (forall a, never_returns (k a)) -> never_returns (bind m k).
Proof.
  intros Hk w b w'. unfold bind. destruct (m w) as [a w1|e w1|w1].
  - apply Hk.
  - discriminate.
  - discriminate.
Qed.

Section Emits.

Context (Q : Event -> Prop).

Lemma emits_ret {A} (a : A) : emits Q (ret a).
Proof. intros w. exists []. by rewrite app_nil_r. Qed.

Lemma emits_raise {A} e : emits Q (@raise A e).
Proof. intros w. exists []. by rewrite app_nil_r. Qed.

Lemma emits_emit e : Q e -> emits Q (emit e).
Proof. intros He w. exists [e]. split; [done|]. by constructor. Qed.

Lemma emits_bind {A B} (m : M A) (k : A -> M B) :
  emits Q m -> (forall a, emits Q (k a)) -> emits Q (bind m k).
Proof.
  intros Hm Hk w. unfold bind. destruct (Hm w) as (evs1 & E1 & F1).
  destruct (m w) as [a w1|e w1|w1]; simpl in *; [|by eauto..].
  destruct (Hk a w1) as (evs2 & E2 & F2). exists (evs1 ++ evs2).
  split; [|by apply Forall_app]. by rewrite E2, E1, app_assoc.
Qed.

Lemma emits_when c m : emits Q m -> emits Q (when c m).
Proof. destruct c; [done|]. intros _. apply emits_ret. Qed.

Lemma emits_while {St} fuel cond (body : St -> M St) s :
  (forall s', emits Q (body s')) -> emits Q (while fuel cond body s).
Proof.
  intros Hb. revert s. induction fuel as [|fuel IH]; intros s w; simpl.
  - destruct (cond s); exists []; by rewrite app_nil_r.
  - destruct (cond s); [|exists []; by rewrite app_nil_r].
    destruct (Hb s w) as (evs1 & E1 & F1).
    destruct (body s w) as [s1 w1|e w1|w1]; simpl in *; [|by eauto..].
    destruct (IH s1 w1) as (evs2 & E2 & F2). exists (evs1 ++ evs2).
    split; [|by apply Forall_app]. by rewrite E2, E1, app_assoc.
Qed.

Lemma emits_isatty : emits Q isatty.
Proof. intros w. exists []. by rewrite app_nil_r. Qed.

Lemma emits_stdin_read :
  (forall s, Q (EStdinRead s)) -> emits Q stdin_read.
Proof. intros H w. eexists [_]. split; [done|]. by constructor. Qed.

Lemma emits_input text :
  Q (EAsk text) -> (forall l, Q (ELine l)) -> emits Q (input text).
Proof.
  intros Ha Hl w. unfold input.
  destruct (stdin w) as [[|l ls]|[|c s]].
  - exists [EAsk text]. split; [done|]. by constructor.
  - exists [EAsk text; ELine l]. split; [by rewrite <- app_assoc|].
    by repeat constructor.
  - exists [EAsk text]. split; [done|]. by constructor.
  - destruct (read_line (String c s)) as [l rest]. simpl.
    exists [EAsk text; ELine l]. split; [by rewrite <- app_assoc|].
    by repeat constructor.
Qed.

Lemma emits_typer_prompt text d :
  Q (EAsk text) -> (forall o, Q (EChoice o)) -> emits Q (typer_prompt text d).
Proof.
  intros Ha Hc w. unfold typer_prompt. destruct (answers w) as [|a rest]; simpl.
  - exists [EAsk text]. split; [done|]. by constructor.
  - exists [EAsk text; EChoice (default d a)].
    split; [by rewrite <- app_assoc|]. by repeat constructor.
Qed.

Lemma emits_read_local {A} x (v : option A) : emits Q (read_local x v).
Proof. destruct v; [apply emits_ret|apply emits_raise]. Qed.

Lemma emits_handle X h p r id c :
  (forall c a, Q (EHandle c a)) -> emits Q (handle X h p r id c).
Proof. intros H w. eexists [_]. split; [done|]. by constructor. Qed.

End Emits.

Lemma truthy_piped (content rest : string) :
  truthy (Some (content +:+ LF +:+ rest)) = true.
Proof. destruct content; reflexivity. Qed.

Lemma mode_count_conflict (r : Request) :
  (1 < mode_count r)%nat -> (1 <? mode_count r)%nat = true.
Proof. intros H. by apply Nat.ltb_lt. Qed.

(** ** Piped standard input *)

(** The piped prompt is what the single-shot handler is called with. *)
Lemma piped_prompt_reaches_default_handler (X : Externals) fuel content a :
  calls (trace (world_of (main X fuel bare (boot (Pipe content) a)))) =
  [{| c_handler := DefaultHandler (get_role X DEFAULT);
      c_prompt := Some (content +:+ LF +:+ LF +:+ "");
      c_model := model bare; c_temperature := temperature bare;
      c_top_probability := top_probability bare;
      c_chat_id := None; c_caching := cache bare |}].
Proof.
  unfold main, before_shell_loop, serve, read_prompt, bind, isatty. simpl.
  rewrite truthy_piped. simpl. unfold shell_loop. by destruct fuel.
Qed.

(** ** The guards *)

(** C8 as stated fails: with piped input the missing-parameter guard lets
    [sgpt] without any argument through, and a completion is requested for
    the piped text. *)
Lemma no_missing_parameter_when_piped :
  truthy (prompt bare) = false /\ editor bare = false /\
  truthy (repl bare) = false /\ interactive_mode bare = false /\
  outcome (main demo 1 bare (boot (Pipe "hello") [])) = Returned /\
  calls (trace (world_of (main demo 1 bare (boot (Pipe "hello") [])))) =
  [{| c_handler := DefaultHandler (get_role demo DEFAULT);
      c_prompt := Some ("hello" +:+ LF +:+ LF);
      c_model := "gpt-3.5-turbo"; c_temperature := 0.1;
      c_top_probability := 1; c_chat_id := None; c_caching := true |}].
Proof. repeat split. Qed.

(** C8, amended. On a terminal, a request without prompt argument, editor
    flag, repl option and interactive flag raises [MissingParameter] at
    once: the world is untouched, so no role has been resolved and no
    completion requested. *)
Theorem missing_parameter_on_terminal
    (X : Externals) (fuel : nat) (r : Request) (typed : list string)
    (a : list (option ShellOption)) :
  truthy (prompt r) = false ->
  editor r = false ->
  truthy (repl r) = false ->
  interactive_mode r = false ->
  main X fuel r (boot (Tty typed) a) =
  Raise (MissingParameter "PROMPT") (boot (Tty typed) a).
Proof.
  intros Hp He Hr Hi.
  unfold main, before_shell_loop, serve, read_prompt, bind, isatty, when. simpl.
  by rewrite Hi, Hp, He, Hr.
Qed.

Lemma missing_parameter_on_terminal_witness :
  (truthy (prompt bare) = false /\ editor bare = false /\
   truthy (repl bare) = false /\ interactive_mode bare = false) /\
  main demo 1 bare (boot (Tty ["ls"]) [Some OptE]) =
  Raise (MissingParameter "PROMPT") (boot (Tty ["ls"]) [Some OptE]).
Proof.
  split; [by repeat split|].
  apply (missing_parameter_on_terminal demo 1 bare ["ls"] [Some OptE]);
    reflexivity.
Defined.

(** C4 as stated fails: two mode flags and no prompt on a terminal, and
    the missing-parameter guard comes first. *)
Lemma conflicting_modes_hidden_by_missing_parameter :
  (1 < mode_count (with_shell (with_code bare)))%nat /\
  outcome (main demo 1 (with_shell (with_code bare)) (boot (Tty []) [])) =
  Raised (MissingParameter "PROMPT").
Proof. split; [unfold mode_count; simpl; lia|reflexivity]. Qed.

(** Two mode flags in interactive mode: the loop of lines 166-176 runs, and
    requests completions, before any guard is looked at. *)
Example conflicting_modes_hidden_by_interactive_mode :
  (1 < mode_count (with_interactive (with_role "poet"
                     (with_shell (with_code bare)))))%nat /\
  map c_prompt
    (calls (trace (world_of
       (main demo 3 (with_interactive (with_role "poet"
                       (with_shell (with_code bare))))
          (boot (Tty ["a"; "b"]) []))))) = [Some "a"; Some "b"].
Proof. split; [unfold mode_count; simpl; lia|reflexivity]. Qed.

(** C4, amended. When more than one of the three mode flags is set,
    interactive mode is off, and the missing-parameter guard passes (input
    is piped, or there is a prompt, the editor flag or a repl id), [main]
    raises the conflicting-mode error, having resolved no role and requested
    no completion. *)
Theorem conflicting_modes_rejected
    (X : Externals) (fuel : nat) (r : Request) (i : Stdin)
    (a : list (option ShellOption)) :
  (1 < mode_count r)%nat ->
  interactive_mode r = false ->
  is_tty i = false \/ truthy (prompt r) = true \/ editor r = true
    \/ truthy (repl r) = true ->
  outcome (main X fuel r (boot i a)) =
    Raised (BadArgumentUsage conflicting_modes) /\
  calls (trace (world_of (main X fuel r (boot i a)))) = [] /\
  existsb is_resolution (trace (world_of (main X fuel r (boot i a)))) = false.
Proof.
  intros Hm%mode_count_conflict Hi Hp.
  unfold main, before_shell_loop, serve, read_prompt, bind, isatty, when. simpl.
  rewrite Hi. destruct i as [typed|content]; simpl.
  - destruct Hp as [Hp|[Hp|[Hp|Hp]]]; [discriminate|..]; rewrite Hp; simpl.
    + by rewrite Hm.
    + rewrite andb_false_r. simpl. by rewrite Hm.
    + rewrite andb_false_r. simpl. by rewrite Hm.
  - destruct (truthy (repl r)) eqn:Hr; simpl.
    + rewrite andb_false_r. simpl. by rewrite Hm.
    + rewrite truthy_piped. simpl. by rewrite Hm.
Qed.

Lemma conflicting_modes_rejected_witness :
  ((1 < mode_count (with_code shell_request))%nat /\
   interactive_mode (with_code shell_request) = false /\
   truthy (prompt (with_code shell_request)) = true) /\
  outcome (main demo 1 (with_code shell_request)
             (boot (Tty []) [Some OptE])) =
    Raised (BadArgumentUsage conflicting_modes) /\
  calls (trace (world_of (main demo 1 (with_code shell_request)
                            (boot (Tty []) [Some OptE])))) = [] /\
  existsb is_resolution
    (trace (world_of (main demo 1 (with_code shell_request)
                        (boot (Tty []) [Some OptE])))) = false.
Proof.
  split; [split; [unfold mode_count; simpl; lia|by split]|].
  apply (conflicting_modes_rejected demo 1 (with_code shell_request)
           (Tty []) [Some OptE]).
  - unfold mode_count; simpl; lia.
  - reflexivity.
  - right; left; reflexivity.
Defined.

(** ** Reaching the confirmation loop *)

(** Past the conflicting-mode guard, role resolution fails only on an
    explicit role that does not exist. *)
Lemma resolve_role_returns X r w :
  (mode_count r <=? 1)%nat = true ->
  match resolve_role X r w with
  | Done ro w' =>
      negb (truthy (role r)) || is_not_None (lookup_role X (role r)) = true
  | _ =>
      negb (truthy (role r)) || is_not_None (lookup_role X (role r)) = false
  end.
Proof.
  intros Hm. unfold resolve_role, check_get, SystemRole_get, bind.
  destruct (truthy (role r)); simpl.
  - by destruct (lookup_role X (role r)).
  - unfold mode_count in Hm. by rewrite Nat.ltb_antisym, Hm.
Qed.

(** [serve] returns exactly when [passes] says so, and hands
    [stdin_passed] on unchanged. *)
Lemma serve_returns X fuel r sp p w :
  match serve X fuel r sp p w with
  | Done (sp', fc) w' => passes X r sp (truthy p) = true /\ sp' = sp
  | _ => passes X r sp (truthy p) = false
  end.
Proof.
  unfold serve, passes, bind, when.
  destruct (interactive_mode r); simpl.
  { destruct (SystemRole_get X (role r) w) as [ro w1| |]; try done.
    destruct (interactive_loop X fuel _ r w1) eqn:E; try done.
    by apply while_true_never_returns in E. }
  destruct (truthy p || editor r || truthy (repl r)) eqn:Hp.
  2:{ apply orb_false_elim in Hp as [[-> ->]%orb_false_elim ->]. done. }
  replace (negb (truthy p) && negb (editor r) && negb (truthy (repl r)))
    with false by (by rewrite <- !negb_orb, Hp).
  simpl. rewrite Nat.ltb_antisym.
  destruct (mode_count r <=? 1)%nat eqn:Hm; simpl; [|done].
  destruct (truthy (chat r) && truthy (repl r)) eqn:Hcr; simpl; [done|].
  destruct (editor r && sp) eqn:Hes; simpl; [done|].
  pose proof (resolve_role_returns X r w Hm) as Hrole.
  destruct (resolve_role X r w) as [ro w1| |]; rewrite Hrole; simpl; try done.
  destruct (truthy (repl r)) eqn:Hr; simpl.
  { destruct (ReplHandler_handle X fuel _ p r (repl r) (cache r) w1) eqn:E;
      try done.
    by apply while_true_never_returns in E. }
  destruct (truthy (chat r)); simpl; [|done].
  destruct (second_ai r && is_not_None (second_ai_prompt r)); simpl; [done|].
  destruct (dual_loop X fuel _ _ r _ w1) eqn:E; try done.
  by apply while_true_never_returns in E.
Qed.

Lemma passes_has_prompt X r sp b b' :
  b || truthy (repl r) = b' || truthy (repl r) ->
  passes X r sp b = passes X r sp b'.
Proof.
  intros H. unfold passes.
  rewrite <- !(orb_assoc _ (editor r)), !(orb_comm (editor r)), !orb_assoc.
  by rewrite H.
Qed.

(** Control gets to line 258 exactly when [reaches_shell_loop] says so. *)
Lemma before_shell_loop_returns X fuel r w :
  match before_shell_loop X fuel r w with
  | Done (sp, fc) w' =>
      reaches_shell_loop X r (negb (is_tty (stdin w))) = true
      /\ sp = negb (is_tty (stdin w))
  | _ => reaches_shell_loop X r (negb (is_tty (stdin w))) = false
  end.
Proof.
  unfold before_shell_loop, reaches_shell_loop, read_prompt, bind, isatty,
    stdin_read.
  destruct w as [[typed|content] a tr]; simpl.
  - apply serve_returns.
  - destruct (truthy (repl r)) eqn:Hr; simpl.
    + rewrite (passes_has_prompt X r true true (truthy (prompt r)))
        by (by rewrite Hr, !orb_true_r).
      apply serve_returns.
    + pose proof (serve_returns X fuel r true
        (Some (content +:+ LF +:+ LF +:+ or_empty (prompt r)))) as H.
      rewrite truthy_piped in H. apply H.
Qed.

Ltac emits_step :=
  first
    [ apply emits_ret | apply emits_raise | apply emits_isatty
    | apply emits_read_local
    | apply emits_bind; [|intros ?]
    | apply emits_when
    | apply emits_while; intros ?
    | apply emits_emit
    | apply emits_stdin_read; intros ?
    | apply emits_input; [|intros ?]
    | apply emits_typer_prompt; [|intros ?]
    | apply emits_handle; intros ? ?
    | match goal with
      | |- emits _ (if ?b then _ else _) => destruct b
      | |- emits _ (let '(_, _) := ?x in _) => destruct x
      | |- emits _ (match ?x with _ => _ end) => destruct x
      end
    | reflexivity | exact I ].

Ltac emits_tac := repeat emits_step.

(** Nothing before line 258 shows the confirmation prompt. *)
Lemma serve_quiet X fuel r sp p : emits quiet (serve X fuel r sp p).
Proof.
  unfold serve, resolve_role, check_get, SystemRole_get, interactive_loop,
    ReplHandler_handle, dual_loop, dual_round, handle_second_ai,
    handle_user_input, print.
  emits_tac.
Qed.

Lemma before_shell_loop_quiet X fuel r : emits quiet (before_shell_loop X fuel r).
Proof.
  unfold before_shell_loop, read_prompt.
  repeat first [apply serve_quiet | emits_step].
Qed.

Lemma quiet_not_entered (evs : list Event) :
  Forall quiet evs -> existsb is_confirm evs = false.
Proof.
  induction 1 as [|e evs He _ IH]; simpl; [done|].
  unfold quiet in He. by rewrite He.
Qed.

Lemma starts_with_bind e {A B} (m : M A) (k : A -> M B) :
  starts_with e m -> (forall a, emits (fun _ => True) (k a)) ->
  starts_with e (bind m k).
Proof.
  intros Hm Hk w. unfold bind. destruct (Hm w) as (evs1 & E1).
  destruct (m w) as [a w1| |]; simpl in *; [|by eauto..].
  destruct (Hk a w1) as (evs2 & E2 & _). exists (evs1 ++ evs2).
  by rewrite E2, E1, <- app_assoc.
Qed.

Lemma typer_prompt_starts text d : starts_with (EAsk text) (typer_prompt text d).
Proof.
  intros w. unfold typer_prompt. destruct (answers w) as [|a rest]; simpl.
  - by exists [].
  - exists [EChoice (default d a)]. by rewrite <- app_assoc.
Qed.




(** [sgpt --shell --chat c1 hi] resolves the shell role on a terminal, and
    never gets to the confirmation loop: the dual loop is in the way. *)
Example shell_loop_not_entered_behind_dual_loop (fuel : nat) :
  resolve_role demo (with_shell ping_pong) (boot (Tty []) []) =
  Done (get_role demo SHELL)
    {| stdin := Tty []; answers := [];
       trace := [ECheckGet true false false] |} /\
  shell_loop_entered
    (world_of (main demo fuel (with_shell ping_pong) (boot (Tty []) []))) =
  false.
Proof.
  split; [reflexivity|]. unfold main, bind, shell_loop_entered.
  pose proof (before_shell_loop_returns demo fuel (with_shell ping_pong)
                (boot (Tty []) [])) as Hret.
  destruct (before_shell_loop_quiet demo fuel (with_shell ping_pong)
              (boot (Tty []) [])) as (evs & Etr & Hq).
  simpl in Etr.
  destruct (before_shell_loop demo fuel (with_shell ping_pong)
              (boot (Tty []) [])) as [[sp fc] w1|e w1|w1]; simpl in *.
  - by destruct Hret as [[=] _].
  - by rewrite Etr, (quiet_not_entered evs Hq).
  - by rewrite Etr, (quiet_not_entered evs Hq).
Qed.


(** ** The confirmation loop *)

(** With the shell flag set on a terminal the loop condition never
    changes: the loop has no normal exit. *)
Lemma shell_loop_never_returns X fuel r fc :
  shell r = true -> never_returns (shell_loop X fuel r false fc).
Proof.
  intros Hs. unfold shell_loop. rewrite Hs. apply while_true_never_returns.
Qed.

(** The same on a whole run of [sgpt --shell "list files"]: after the
    description the prompt is shown again. *)
Example describe_then_asked_again :
  main demo 2 shell_request (boot (Tty []) [Some OptD]) =
  Raise Abort
    {| stdin := Tty []; answers := [];
       trace :=
         [ECheckGet true false false;
          EHandle (call_of (DefaultHandler (get_role demo SHELL))
                     (Some "list files") shell_request None true)
                  "-<list files>";
          EAsk confirm_text; EChoice OptD;
          EHandle (describe_call demo shell_request "-<list files>")
                  "-<-<list files>>";
          EAsk confirm_text] |}.
Proof. reflexivity. Qed.

(** C3. On [sgpt --shell "list files"] the user answers Abort, then
    Execute: after Abort the prompt is shown again, after Execute the command
    is run and the prompt is shown a third time; the run ends only because
    the terminal gives no further answer.  Neither answer ends the loop. *)
Theorem confirmation_loop_outlives_abort_and_execute :
  main demo 3 shell_request (boot (Tty []) [Some OptA; Some OptE]) =
  Raise Abort
    {| stdin := Tty []; answers := [];
       trace :=
         [ECheckGet true false false;
          EHandle (call_of (DefaultHandler (get_role demo SHELL))
                     (Some "list files") shell_request None true)
                  "-<list files>";
          EAsk confirm_text; EChoice OptA;
          EAsk confirm_text; EChoice OptE; ERunCommand "-<list files>";
          EAsk confirm_text] |}.
Proof. reflexivity. Qed.

(** Whatever the collaborators: after Abort, and after Execute, the loop
    is back where it was. *)
Lemma abort_repeats X fuel r fc w rest :
  shell r = true -> answers w = Some OptA :: rest ->
  shell_loop X (S fuel) r false fc w =
  shell_loop X fuel r false fc
    {| stdin := stdin w; answers := rest;
       trace := trace w ++ [EAsk confirm_text; EChoice OptA] |}.
Proof.
  intros Hs Ha. unfold shell_loop at 1. rewrite while_unfold, Hs. simpl.
  unfold shell_round, bind, typer_prompt. rewrite Ha. simpl.
  unfold shell_loop. rewrite Hs. simpl. by rewrite <- !app_assoc.
Qed.

Lemma execute_repeats X fuel r command w rest :
  shell r = true -> answers w = Some OptE :: rest ->
  shell_loop X (S fuel) r false (Some command) w =
  shell_loop X fuel r false (Some command)
    {| stdin := stdin w; answers := rest;
       trace := trace w ++
         [EAsk confirm_text; EChoice OptE; ERunCommand command] |}.
Proof.
  intros Hs Ha. unfold shell_loop at 1. rewrite while_unfold, Hs. simpl.
  unfold shell_round, bind, typer_prompt. rewrite Ha. simpl.
  unfold shell_loop. rewrite Hs. simpl. by rewrite <- !app_assoc.
Qed.

(** C9. On the one-shot dual-agent path with the shell flag the
    confirmation loop is entered although the default handler was never
    called, and Execute finds [full_completion] unassigned. *)
Theorem execute_without_a_completion :
  main demo 1 one_shot_shell (boot (Tty []) [Some OptE]) =
  Raise (UnboundLocalError "full_completion")
    {| stdin := Tty []; answers := [];
       trace :=
         [ECheckGet true false false;
          EHandle (call_of (ChatHandler (Some "c1") (get_role demo SHELL))
                     (Some "yo") one_shot_shell (Some "c1") true)
                  "c1<yo>";
          EAsk confirm_text; EChoice OptE] |}.
Proof. reflexivity. Qed.

(** On the one-shot path [full_completion] is never assigned. *)
Lemma one_shot_leaves_full_completion_unbound X fuel r sp p w v w' :
  truthy (chat r) = true ->
  serve X fuel r sp p w = Done v w' -> v = (sp, None).
Proof.
  intros Hc. unfold serve, bind, when. rewrite Hc.
  destruct (interactive_mode r); simpl.
  { destruct (SystemRole_get X (role r) w) as [ro w1| |]; try done.
    destruct (interactive_loop X fuel _ r w1) eqn:E; try done.
    by apply while_true_never_returns in E. }
  destruct (_ && _ && _); simpl; [done|].
  destruct (1 <? mode_count r)%nat; simpl; [done|].
  destruct (truthy (repl r)); simpl; [done|].
  destruct (editor r && sp); simpl; [done|].
  destruct (resolve_role X r w) as [ro w1| |]; simpl; try done.
  destruct (second_ai r && is_not_None (second_ai_prompt r)); simpl.
  - by intros [= <- _].
  - destruct (dual_loop X fuel _ _ r _ w1) eqn:E; try done.
    by apply while_true_never_returns in E.
Qed.

(** ** The interactive loop on a terminal *)

Lemma calls_app tr tr' : calls (tr ++ tr') = calls tr ++ calls tr'.
Proof. apply omap_app. Qed.

Lemma prompts_app tr tr' : prompts (tr ++ tr') = prompts tr ++ prompts tr'.
Proof. unfold prompts. by rewrite calls_app, map_app. Qed.


(** In interactive mode [main] has no normal exit, and no guard is ever
    looked at: the loop of lines 166-176 comes first. *)
Lemma interactive_mode_has_no_exit X fuel r :
  interactive_mode r = true -> never_returns (main X fuel r).
Proof.
  intros Hi. unfold main, before_shell_loop.
  apply bind_never_returns_l, bind_never_returns_r. intros [sp p].
  unfold serve. rewrite Hi. apply bind_never_returns_l. simpl.
  apply bind_never_returns_r. intros ro.
  apply while_true_never_returns.
Qed.

(** ** The dual-agent paths *)

(** Whatever the collaborators: on the one-shot path (a chat id, the
    second-AI flag and a second-AI prompt, no explicit role) the only
    completion is [ChatHandler(chat).handle(second_ai_prompt, chat_id=chat)];
    [prompt] is sent to no handler. *)
Lemma one_shot_serves_one_call X fuel r sp p w q :
  passes X r sp (truthy p) = true ->
  truthy (chat r) = true ->
  truthy (role r) = false ->
  second_ai r = true ->
  second_ai_prompt r = Some q ->
  let c := call_of (ChatHandler (chat r) (derived_role X r)) (Some q) r
             (chat r) (cache r) in
  let tr1 := trace w ++ [ECheckGet (shell r) (describe_shell r) (code r)] in
  serve X fuel r sp p w =
  Done (sp, None)
    {| stdin := stdin w; answers := answers w;
       trace := tr1 ++ [EHandle c (completion X tr1 c)] |}.
Proof.
  intros Hp Hc Hro Hs Hq. unfold passes in Hp.
  repeat match goal with
         | H : _ && _ = true |- _ => apply andb_prop in H as [? ?]
         end.
  repeat match goal with
         | H : negb _ = true |- _ => apply negb_true_iff in H
         end.
  unfold serve, bind, when, resolve_role, check_get, handle_second_ai, handle,
    emit, ret.
  match goal with H : interactive_mode r = false |- _ => rewrite H end.
  simpl.
  replace (negb (truthy p) && negb (editor r) && negb (truthy (repl r)))
    with false by (by rewrite <- !negb_orb; apply eq_sym, negb_false_iff).
  simpl. rewrite Nat.ltb_antisym.
  match goal with H : (mode_count r <=? 1)%nat = true |- _ =>
    rewrite H; unfold mode_count in H end.
  simpl.
  match goal with H : truthy (chat r) && truthy (repl r) = false |- _ => rewrite H end.
  match goal with H : editor r && sp = false |- _ => rewrite H end.
  simpl. rewrite Hro. simpl.
  rewrite Nat.ltb_antisym.
  match goal with H : (_ <=? 1)%nat = true |- _ => rewrite H end.
  simpl.
  match goal with H : truthy (repl r) = false |- _ => rewrite H end.
  simpl. rewrite Hc, Hs, Hq. simpl. reflexivity.
Qed.

(** C1. On [sgpt --chat c1 --second-ai --second-ai-prompt yo hi] one
    completion is requested, not two: the handler of chat [c1] is given the
    second-AI prompt, the initial prompt is never sent, and the only
    conversation written is [c1]. *)
Theorem one_shot_requests_a_single_completion :
  outcome (main demo 2 one_shot (boot (Tty []) [])) = Returned /\
  calls (trace (world_of (main demo 2 one_shot (boot (Tty []) [])))) =
    [call_of (ChatHandler (Some "c1") (get_role demo DEFAULT)) (Some "yo")
       one_shot (Some "c1") true] /\
  conversations (trace (world_of (main demo 2 one_shot (boot (Tty []) [])))) =
    {[ "c1" := [(Some "yo", "c1<yo>")] ]}.
Proof.
  split; [reflexivity|]. split; [reflexivity|].
  vm_compute. reflexivity.
Qed.

(** C2. On [sgpt --chat c1 hi], two rounds of the dual loop: in the second
    round the first agent is prompted with its own first answer, and the
    second agent with its own first answer; no answer crosses over. *)
Theorem dual_loop_feeds_each_agent_its_own_answer :
  outcome (main demo 2 ping_pong (boot (Tty []) [])) = Running /\
  exchanges (trace (world_of (main demo 2 ping_pong (boot (Tty []) [])))) =
    [(Some "c1", Some "hi"); (Some "second_ai", None);
     (Some "c1", Some "c1<hi>"); (Some "second_ai", Some "second_ai<None>")].
Proof. split; reflexivity. Qed.

(** The two conversations after those two rounds. *)
Example dual_loop_conversations :
  conversations (trace (world_of (main demo 2 ping_pong (boot (Tty []) [])))) =
    {[ "c1" := [(Some "hi", "c1<hi>"); (Some "c1<hi>", "c1<c1<hi>>")];
       "second_ai" := [(None, "second_ai<None>");
                       (Some "second_ai<None>", "second_ai<second_ai<None>>")] ]}.
Proof. vm_compute. reflexivity. Qed.

(** With [--chat second_ai] both agents write to one conversation. *)
Example dual_loop_shared_conversation :
  conversations
    (trace (world_of (main demo 1 (with_chat "second_ai" (with_prompt "hi" bare))
                        (boot (Tty []) [])))) =
    {[ "second_ai" := [(Some "hi", "second_ai<hi>");
                       (None, "second_ai<None>")] ]}.
Proof. vm_compute. reflexivity. Qed.

(** One round of the dual loop, whatever the collaborators answer: the
    first agent's answer is the next [prompt], the second agent's answer is
    the next [second_ai_prompt]. *)
Lemma dual_round_feeds_back X h1 h2 r p q w :
  let c1 := call_of h1 p r (chat r) (cache r) in
  let a1 := completion X (trace w) c1 in
  let c2 := call_of h2 q r (Some "second_ai") (cache r) in
  let a2 := completion X
              (trace w ++ [EHandle c1 a1; EPrint ("First AI: " +:+ a1)]) c2 in
  dual_round X h1 h2 r (p, q) w =
  Done (Some a1, Some a2)
    {| stdin := stdin w; answers := answers w;
       trace := trace w ++
         [EHandle c1 a1; EPrint ("First AI: " +:+ a1);
          EHandle c2 a2; EPrint ("Second AI: " +:+ a2)] |}.
Proof.
  unfold dual_round, bind, handle, print, emit, ret. simpl.
  by rewrite <- !app_assoc.
Qed.

Lemma dual_loop_never_returns X fuel h1 h2 r vars :
  never_returns (dual_loop X fuel h1 h2 r vars).
Proof. apply while_true_never_returns. Qed.

(** * Further properties *)

Ltac small_modes := unfold mode_count; simpl; lia.

(** ** Which exceptions leave a computation *)

Section Raises.

Context (P : Exn -> Prop).

Lemma raises_ret {A} (a : A) : raises P (ret a).
Proof. by intros w e w'. Qed.

Lemma raises_raise {A} e : P e -> raises P (@raise A e).
Proof. by intros He w e' w' [= <- _]. Qed.

Lemma raises_emit e : raises P (emit e).
Proof. by intros w e' w'. Qed.

Lemma raises_bind {A B} (m : M A) (k : A -> M B) :
  raises P m -> (forall a, raises P (k a)) -> raises P (bind m k).
Proof.
  intros Hm Hk w e w'. unfold bind.
  destruct (m w) as [a w1|e1 w1|w1] eqn:E; [apply Hk| |done].
  intros [= <- _]. by eapply Hm.
Qed.

(** What follows a computation without normal exit does not matter. *)
Lemma raises_bind_stuck {A B} (m : M A) (k : A -> M B) :
  never_returns m -> raises P m -> raises P (bind m k).
Proof.
  intros Hn Hm w e w'. unfold bind.
  destruct (m w) as [a w1|e1 w1|w1] eqn:E; [by apply Hn in E| |done].
  intros [= <- _]. by eapply Hm.
Qed.

Lemma raises_when c m : raises P m -> raises P (when c m).
Proof. destruct c; [done|]. intros _. apply raises_ret. Qed.

Lemma raises_while {St} fuel cond (body : St -> M St) s :
  (forall s', raises P (body s')) -> raises P (while fuel cond body s).
Proof.
  intros Hb. revert s. induction fuel as [|fuel IH]; intros s w e w'; simpl.
  - by destruct (cond s).
  - destruct (cond s); [|done].
    destruct (body s w) as [s1 w1|e1 w1|w1] eqn:E; [apply IH| |done].
    intros [= <- _]. by eapply Hb.
Qed.

Lemma raises_isatty : raises P isatty.
Proof. by intros w e w'. Qed.

Lemma raises_stdin_read : raises P stdin_read.
Proof. by intros w e w'. Qed.

Lemma raises_input text : P EOFError -> raises P (input text).
Proof.
  intros He w e w'. unfold input.
  destruct (stdin w) as [[|l ls]|[|c s]]; try done.
  - by intros [= <- _].
  - by intros [= <- _].
  - by destruct (read_line _).
Qed.

Lemma raises_typer_prompt text d : P Abort -> raises P (typer_prompt text d).
Proof.
  intros He w e w'. unfold typer_prompt. destruct (answers w); [|done].
  by intros [= <- _].
Qed.

Lemma raises_read_local {A} x (v : option A) :
  (v = None -> P (UnboundLocalError x)) -> raises P (read_local x v).
Proof.
  destruct v; intros H; [apply raises_ret|]. apply raises_raise. by apply H.
Qed.

Lemma raises_handle X h p r id c : raises P (handle X h p r id c).
Proof. by intros w e w'. Qed.

End Raises.

Ltac raises_step :=
  first
    [ apply raises_ret | apply raises_emit | apply raises_isatty
    | apply raises_stdin_read | apply raises_handle
    | apply raises_bind; [|intros ?]
    | apply raises_when
    | apply raises_while; intros ?
    | apply raises_input
    | apply raises_typer_prompt
    | apply raises_read_local; intros ?
    | apply raises_raise
    | match goal with
      | |- raises _ (if ?b then _ else _) => destruct b
      | |- raises _ (let '(_, _) := ?x in _) => destruct x
      | |- raises _ (match ?x with _ => _ end) => destruct x
      end
    | done ].

(** ** The other guards *)

(** X1. With interactive mode off and at most one mode flag, a chat id
    together with a repl id is refused at once: the world is untouched, so
    standard input has not been read, no role resolved and no completion
    requested. *)
Theorem chat_and_repl_rejected
    (X : Externals) (fuel : nat) (r : Request) (i : Stdin)
    (a : list (option ShellOption)) :
  interactive_mode r = false ->
  (mode_count r <= 1)%nat ->
  truthy (chat r) = true ->
  truthy (repl r) = true ->
  main X fuel r (boot i a) = Raise (BadArgumentUsage chat_and_repl) (boot i a).
Proof.
  intros Hi Hm%Nat.leb_le Hc Hr.
  unfold main, before_shell_loop, serve, read_prompt, bind, isatty, when.
  simpl. rewrite Hr, andb_false_r. simpl.
  rewrite Hi, andb_false_r. simpl.
  by rewrite Nat.ltb_antisym, Hm, Hc.
Qed.

Lemma chat_and_repl_rejected_witness :
  (interactive_mode chat_repl = false /\ (mode_count chat_repl <= 1)%nat /\
   truthy (chat chat_repl) = true /\ truthy (repl chat_repl) = true) /\
  main demo 1 chat_repl (boot (Tty []) []) =
  Raise (BadArgumentUsage chat_and_repl) (boot (Tty []) []).
Proof.
  split; [repeat split; small_modes|].
  apply (chat_and_repl_rejected demo 1 chat_repl (Tty []) []);
    first [reflexivity | small_modes].
Defined.

(** X2. With interactive mode off, at most one mode flag and not both a
    chat id and a repl id, the editor flag on piped input is refused before
    any role is resolved or completion requested. *)
Theorem editor_and_stdin_rejected
    (X : Externals) (fuel : nat) (r : Request) (content : string)
    (a : list (option ShellOption)) :
  interactive_mode r = false ->
  (mode_count r <= 1)%nat ->
  truthy (chat r) && truthy (repl r) = false ->
  editor r = true ->
  outcome (main X fuel r (boot (Pipe content) a)) =
    Raised (BadArgumentUsage editor_and_stdin) /\
  calls (trace (world_of (main X fuel r (boot (Pipe content) a)))) = [] /\
  existsb is_resolution
    (trace (world_of (main X fuel r (boot (Pipe content) a)))) = false.
Proof.
  intros Hi Hm%Nat.leb_le Hcr He.
  unfold main, before_shell_loop, serve, read_prompt, bind, isatty, when.
  simpl. destruct (truthy (repl r)) eqn:Hr; simpl.
  - rewrite Hi, He. simpl. rewrite !andb_false_r. simpl.
    rewrite Nat.ltb_antisym, Hm. simpl. by rewrite Hcr.
  - rewrite Hi, He. simpl. rewrite andb_false_r. simpl.
    rewrite Nat.ltb_antisym, Hm. simpl. by rewrite Hcr.
Qed.

Lemma editor_and_stdin_rejected_witness :
  (interactive_mode (with_editor bare) = false /\
   (mode_count (with_editor bare) <= 1)%nat /\
   truthy (chat (with_editor bare)) && truthy (repl (with_editor bare))
     = false /\
   editor (with_editor bare) = true) /\
  outcome (main demo 1 (with_editor bare) (boot (Pipe "draft") [])) =
    Raised (BadArgumentUsage editor_and_stdin) /\
  calls (trace (world_of
           (main demo 1 (with_editor bare) (boot (Pipe "draft") [])))) = [] /\
  existsb is_resolution
    (trace (world_of
       (main demo 1 (with_editor bare) (boot (Pipe "draft") [])))) = false.
Proof.
  split; [repeat split; small_modes|].
  apply (editor_and_stdin_rejected demo 1 (with_editor bare) "draft" []);
    first [reflexivity | small_modes].
Defined.

(** ** Lines 158-161 as a function of the request and standard input *)

Lemma read_prompt_eq r w :
  read_prompt r w =
  Done (negb (is_tty (stdin w)), effective_prompt r (stdin w)) (after_read r w).
Proof.
  unfold read_prompt, after_read, effective_prompt, bind, isatty, stdin_read.
  destruct w as [[typed|content] a tr]; simpl; [done|].
  by destruct (truthy (repl r)).
Qed.

Lemma main_eq X fuel r w :
  main X fuel r w =
  bind (serve X fuel r (negb (is_tty (stdin w)))
          (effective_prompt r (stdin w)))
    (fun locals => let '(stdin_passed, full_completion) := locals in
                   shell_loop X fuel r stdin_passed full_completion)
    (after_read r w).
Proof.
  unfold main, before_shell_loop. unfold bind at 1 2. by rewrite read_prompt_eq.
Qed.

Lemma effective_prompt_piped r content :
  truthy (repl r) = false ->
  truthy (effective_prompt r (Pipe content)) = true.
Proof. intros Hr. simpl. rewrite Hr. apply truthy_piped. Qed.

(** ** When the missing-parameter error is raised *)

Lemma shell_loop_not_missing X fuel r sp fc :
  raises not_missing (shell_loop X fuel r sp fc).
Proof.
  unfold shell_loop, shell_round, run_command. repeat raises_step.
Qed.

Lemma serve_not_missing X fuel r sp p :
  interactive_mode r = true \/
  negb (truthy p) && negb (editor r) && negb (truthy (repl r)) = false ->
  raises not_missing (serve X fuel r sp p).
Proof.
  intros H. unfold serve.
  destruct (interactive_mode r) eqn:Hi.
  - apply raises_bind_stuck.
    + simpl. apply bind_never_returns_r. intros ro.
      apply while_true_never_returns.
    + unfold SystemRole_get, interactive_loop, handle_user_input, print.
      repeat raises_step.
  - destruct H as [H|H]; [done|]. rewrite H.
    unfold resolve_role, check_get, SystemRole_get, ReplHandler_handle,
      dual_loop, dual_round, handle_second_ai, print.
    repeat raises_step.
Qed.

(** X3. [main] raises the missing-parameter error exactly when standard
    input is a terminal, interactive mode is off, and there is neither a
    non-empty prompt argument, nor the editor flag, nor a repl id; no other
    path raises it. *)
Theorem missing_parameter_iff
    (X : Externals) (fuel : nat) (r : Request) (i : Stdin)
    (a : list (option ShellOption)) :
  (exists hint, outcome (main X fuel r (boot i a)) =
                Raised (MissingParameter hint)) <->
  is_tty i = true /\ interactive_mode r = false /\
  truthy (prompt r) = false /\ editor r = false /\ truthy (repl r) = false.
Proof.
  rewrite main_eq. simpl. split.
  - intros [hint Hout].
    destruct (interactive_mode r) eqn:Hi.
    { exfalso.
      assert (raises not_missing
                (bind (serve X fuel r (negb (is_tty i)) (effective_prompt r i))
                   (fun locals => let '(sp, fc) := locals in
                                  shell_loop X fuel r sp fc))) as Hr.
      { apply raises_bind; [apply serve_not_missing; by left|].
        intros [sp fc]. apply shell_loop_not_missing. }
      destruct (bind _ _ _) as [| e w'|] eqn:E; try done.
      simpl in Hout. injection Hout as ->. by eapply Hr. }
    destruct (negb (truthy (effective_prompt r i)) && negb (editor r)
              && negb (truthy (repl r))) eqn:Hg.
    + apply andb_prop in Hg as [[Hp He]%andb_prop Hr].
      apply negb_true_iff in Hp, He, Hr.
      destruct i as [typed|content]; [done|].
      by rewrite effective_prompt_piped in Hp.
    + exfalso.
      assert (raises not_missing
                (bind (serve X fuel r (negb (is_tty i)) (effective_prompt r i))
                   (fun locals => let '(sp, fc) := locals in
                                  shell_loop X fuel r sp fc))) as Hr.
      { apply raises_bind; [apply serve_not_missing; by right|].
        intros [sp fc]. apply shell_loop_not_missing. }
      destruct (bind _ _ _) as [| e w'|] eqn:E; try done.
      simpl in Hout. injection Hout as ->. by eapply Hr.
  - intros (Htty & Hi & Hp & He & Hr). exists "PROMPT".
    destruct i as [typed|content]; [|done].
    unfold bind, serve, when. simpl. by rewrite Hi, Hp, He, Hr.
Qed.

(** ** Interactive mode *)



(** In interactive mode [main] is the interactive loop, run after the
    role lookup. *)
Lemma main_interactive X fuel r ro w :
  interactive_mode r = true ->
  lookup_role X (role r) = Some ro ->
  let w1 := {| stdin := stdin (after_read r w);
               answers := answers (after_read r w);
               trace := trace (after_read r w) ++ [ERoleGet (role r)] |} in
  outcome (main X fuel r w) =
    outcome (interactive_loop X fuel (ChatHandler (chat r) ro) r w1) /\
  world_of (main X fuel r w) =
    world_of (interactive_loop X fuel (ChatHandler (chat r) ro) r w1).
Proof.
  intros Hi Hro w1. rewrite main_eq. unfold bind, serve, when. rewrite Hi.
  unfold SystemRole_get, bind, emit. rewrite Hro. fold w1. unfold ret.
  destruct (interactive_loop X fuel _ r w1) eqn:E; try done.
  by apply while_true_never_returns in E.
Qed.



(** X5. In interactive mode with piped input and no repl id, line 161 has
    already read the pipe to its end: the first [input()] raises [EOFError]
    and no completion is requested. *)
Theorem interactive_mode_on_a_pipe_reads_nothing
    (X : Externals) (fuel : nat) (r : Request) (ro : Role)
    (content : string) (a : list (option ShellOption)) :
  interactive_mode r = true ->
  truthy (repl r) = false ->
  lookup_role X (role r) = Some ro ->
  main X (S fuel) r (boot (Pipe content) a) =
  Raise EOFError
    {| stdin := Pipe ""; answers := a;
       trace := [EStdinRead content; ERoleGet (role r); EAsk "You: "] |}.
Proof.
  intros Hi Hr Hro.
  destruct (main_interactive X (S fuel) r ro (boot (Pipe content) a) Hi Hro)
    as [Ho Hw].
  unfold after_read, interactive_loop in Ho, Hw. simpl in Ho, Hw.
  rewrite Hr in Ho, Hw. simpl in Ho, Hw.
  destruct (main X (S fuel) r (boot (Pipe content) a)); try done.
  simpl in Ho, Hw. congruence.
Qed.

Lemma interactive_mode_on_a_pipe_reads_nothing_witness :
  (interactive_mode interactive_poet = true /\
   truthy (repl interactive_poet) = false /\
   lookup_role demo (role interactive_poet) = Some poet) /\
  main demo 1 interactive_poet (boot (Pipe "a") []) =
  Raise EOFError
    {| stdin := Pipe ""; answers := [];
       trace := [EStdinRead "a"; ERoleGet (Some "poet"); EAsk "You: "] |}.
Proof.
  split; [by repeat split|].
  apply (interactive_mode_on_a_pipe_reads_nothing demo 0 interactive_poet poet
           "a" []); reflexivity.
Defined.

(** ** Readings of a trace in two parts *)

Lemma handles_app tr tr' : handles (tr ++ tr') = handles tr ++ handles tr'.
Proof. apply omap_app. Qed.

Lemma printed_app tr tr' : printed (tr ++ tr') = printed tr ++ printed tr'.
Proof. apply omap_app. Qed.

Lemma addressees_app tr tr' :
  addressees (tr ++ tr') = addressees tr ++ addressees tr'.
Proof. unfold addressees. by rewrite calls_app, map_app. Qed.

(** ** The second-AI options without a chat id *)

(** X10. Without a chat id the two second-AI options change nothing: the
    run is the one of the same request with both at their defaults. *)
Theorem second_ai_is_ignored_without_chat
    (X : Externals) (fuel : nat) (r : Request) (w : World) :
  truthy (chat r) = false ->
  main X fuel r w = main X fuel (without_second_ai r) w.
Proof.
  intros Hc. unfold main, before_shell_loop, serve.
  change (chat (without_second_ai r)) with (chat r). rewrite Hc.
  reflexivity.
Qed.

Lemma second_ai_is_ignored_without_chat_witness :
  truthy (chat (with_second_ai (Some "yo") (with_prompt "hi" bare))) = false
  /\
  main demo 1 (with_second_ai (Some "yo") (with_prompt "hi" bare))
    (boot (Tty []) []) =
  main demo 1
    (without_second_ai (with_second_ai (Some "yo") (with_prompt "hi" bare)))
    (boot (Tty []) []).
Proof.
  split; [reflexivity|].
  apply (second_ai_is_ignored_without_chat demo 1
           (with_second_ai (Some "yo") (with_prompt "hi" bare))
           (boot (Tty []) [])).
  reflexivity.
Defined.

Lemma run_commands_app tr tr' :
  run_commands (tr ++ tr') = run_commands tr ++ run_commands tr'.
Proof. apply omap_app. Qed.

(** ** Which command is run *)

Lemma shell_round_runs_only X r fc : emits (runs_only fc) (shell_round X r fc).
Proof.
  intros w. unfold shell_round, bind, typer_prompt.
  destruct (answers w) as [|a rest]; simpl.
  { exists [EAsk confirm_text]. split; [done|]. by repeat constructor. }
  destruct (default _ a), fc as [command|]; simpl;
    eexists; (split; [rewrite <- !app_assoc; reflexivity|]);
    repeat constructor; by intros ? [= <-].
Qed.

Lemma shell_loop_runs_only X fuel r sp fc :
  emits (runs_only fc) (shell_loop X fuel r sp fc).
Proof.
  unfold shell_loop. apply emits_while. intros []. apply shell_round_runs_only.
Qed.

(** Nothing before line 258 runs a command. *)
Lemma serve_runs_nothing X fuel r sp p :
  emits (runs_only None) (serve X fuel r sp p).
Proof.
  unfold serve, resolve_role, check_get, SystemRole_get, interactive_loop,
    ReplHandler_handle, dual_loop, dual_round, handle_second_ai,
    handle_user_input, print.
  repeat first [ emits_step | by intros ? [=] ].
Qed.

Lemma runs_only_commands fc evs command :
  Forall (runs_only fc) evs -> In command (run_commands evs) ->
  fc = Some command.
Proof.
  induction 1 as [|e evs He _ IH]; simpl; [done|].
  destruct e; simpl; try done. intros [<-|Hin]; [by apply He|by apply IH].
Qed.

(** When [serve] returns with [full_completion] assigned, there is no chat
    id and the value is the answer of the default handler to the prompt. *)
Lemma serve_full_completion X fuel r sp p w sp' command w' :
  serve X fuel r sp p w = Done (sp', Some command) w' ->
  truthy (chat r) = false /\
  exists ro, In (call_of (DefaultHandler ro) p r None (cache r), command)
               (handles (trace w')).
Proof.
  unfold serve, bind, when.
  destruct (interactive_mode r); simpl.
  { destruct (SystemRole_get X (role r) w) as [ro w1| |]; try done.
    destruct (interactive_loop X fuel _ r w1) eqn:E; try done.
    by apply while_true_never_returns in E. }
  destruct (_ && _ && _); simpl; [done|].
  destruct (1 <? mode_count r)%nat; simpl; [done|].
  destruct (truthy (chat r) && truthy (repl r)); simpl; [done|].
  destruct (editor r && sp); simpl; [done|].
  destruct (resolve_role X r w) as [ro w1| |]; simpl; try done.
  destruct (truthy (repl r)); simpl.
  { destruct (ReplHandler_handle X fuel _ p r (repl r) (cache r) w1) eqn:E;
      try done.
    by apply while_true_never_returns in E. }
  destruct (truthy (chat r)); simpl.
  - destruct (second_ai r && is_not_None (second_ai_prompt r)); simpl;
      [done|].
    by destruct (dual_loop X fuel _ _ r _ w1).
  - intros [= <- <- <-]. split; [done|]. exists ro. simpl.
    rewrite handles_app. apply in_or_app. right. by left.
Qed.

(** X11. Whatever [main] runs as a command, it runs with the shell flag,
    on a terminal, without a chat id, and the command is an answer the
    default handler gave to the prompt argument. *)
Theorem only_the_completion_is_run
    (X : Externals) (fuel : nat) (r : Request) (i : Stdin)
    (a : list (option ShellOption)) (command : string) :
  In command (run_commands (trace (world_of (main X fuel r (boot i a))))) ->
  shell r = true /\ is_tty i = true /\ truthy (chat r) = false /\
  exists ro,
    In (call_of (DefaultHandler ro) (prompt r) r None (cache r), command)
       (handles (trace (world_of (main X fuel r (boot i a))))).
Proof.
  rewrite main_eq. change (stdin (boot i a)) with i. unfold bind.
  assert (run_commands (trace (after_read r (boot i a))) = []) as H0.
  { unfold after_read. simpl. destruct i; [done|].
    by destruct (truthy (repl r)). }
  destruct (serve_runs_nothing X fuel r (negb (is_tty i))
              (effective_prompt r i) (after_read r (boot i a)))
    as (evs & Etr & Hq).
  pose proof (serve_returns X fuel r (negb (is_tty i))
                (effective_prompt r i) (after_read r (boot i a))) as Hret.
  destruct (serve X fuel r _ _ _) as [[sp fc] w1|e w1|w1] eqn:Es;
    simpl in *.
  2,3: rewrite Etr, run_commands_app, H0; simpl; intros Hin;
       by apply (runs_only_commands None evs) in Hin.
  destruct Hret as [_ ->].
  destruct (shell_loop_runs_only X fuel r (negb (is_tty i)) fc w1)
    as (evs' & Etr' & Hq').
  rewrite Etr', Etr, !run_commands_app, H0. simpl. intros Hin.
  apply in_app_or in Hin as [Hin|Hin];
    [by apply (runs_only_commands None evs) in Hin|].
  pose proof (runs_only_commands fc evs' command Hq' Hin) as ->.
  assert (shell r = true /\ is_tty i = true) as [Hs Htty].
  { unfold shell_loop in Etr'.
    destruct (shell r) eqn:Hs, (is_tty i) eqn:Htty; try done;
      destruct fuel; simpl in Etr'; rewrite ?Hs in Etr'; simpl in Etr';
      apply (f_equal length) in Etr'; rewrite length_app in Etr';
      destruct evs'; simpl in *; try done; lia. }
  apply serve_full_completion in Es as [Hc [ro Hro]].
  repeat split; try done. exists ro. rewrite handles_app.
  apply in_or_app. left. rewrite <- Etr. by destruct i.
Qed.

Lemma only_the_completion_is_run_witness :
  In "-<list files>"
    (run_commands (trace (world_of
       (main demo 2 shell_request (boot (Tty []) [Some OptE]))))) /\
  (shell shell_request = true /\ is_tty (Tty []) = true /\
   truthy (chat shell_request) = false /\
   exists ro,
     In (call_of (DefaultHandler ro) (prompt shell_request) shell_request
           None (cache shell_request), "-<list files>")
        (handles (trace (world_of
           (main demo 2 shell_request (boot (Tty []) [Some OptE])))))).
Proof.
  split; [by left|].
  apply (only_the_completion_is_run demo 2 shell_request (Tty [])
           [Some OptE] "-<list files>").
  by left.
Defined.

(** ** The single-shot path *)

Lemma reaches_passes X r i :
  reaches_shell_loop X r (negb (is_tty i)) =
  passes X r (negb (is_tty i)) (truthy (effective_prompt r i)).
Proof.
  unfold reaches_shell_loop. destruct i as [typed|content]; simpl; [done|].
  destruct (truthy (repl r)) eqn:Hr.
  - apply passes_has_prompt. by rewrite Hr, !orb_true_r.
  - by rewrite truthy_piped.
Qed.





(** ** The command at hand *)

Lemma serve_not_unbound X fuel r sp p :
  raises not_unbound (serve X fuel r sp p).
Proof.
  unfold serve, resolve_role, check_get, SystemRole_get, interactive_loop,
    ReplHandler_handle, dual_loop, dual_round, handle_second_ai,
    handle_user_input, print.
  repeat raises_step.
Qed.

Lemma shell_loop_not_unbound X fuel r sp command :
  raises not_unbound (shell_loop X fuel r sp (Some command)).
Proof.
  unfold shell_loop, shell_round, run_command. repeat raises_step.
Qed.

Lemma serve_assigns X fuel r sp p w sp' fc w' :
  truthy (chat r) = false ->
  serve X fuel r sp p w = Done (sp', fc) w' -> is_not_None fc = true.
Proof.
  intros Hc. unfold serve, bind, when. rewrite Hc.
  destruct (interactive_mode r); simpl.
  { destruct (SystemRole_get X (role r) w) as [ro w1| |]; try done.
    destruct (interactive_loop X fuel _ r w1) eqn:E; try done.
    by apply while_true_never_returns in E. }
  destruct (_ && _ && _); simpl; [done|].
  destruct (1 <? mode_count r)%nat; simpl; [done|].
  destruct (editor r && sp); simpl; [done|].
  destruct (resolve_role X r w) as [ro w1| |]; simpl; try done.
  destruct (truthy (repl r)); simpl.
  { destruct (ReplHandler_handle X fuel _ p r (repl r) (cache r) w1) eqn:E;
      try done.
    by apply while_true_never_returns in E. }
  by intros [= _ <- _].
Qed.

(** X14. Without a chat id [main] never fails on an unassigned local:
    whenever the confirmation loop is reached, [full_completion] is
    assigned. *)
Theorem no_unbound_local_without_chat
    (X : Externals) (fuel : nat) (r : Request) (i : Stdin)
    (a : list (option ShellOption)) (variable : string) :
  truthy (chat r) = false ->
  outcome (main X fuel r (boot i a)) <> Raised (UnboundLocalError variable).
Proof.
  intros Hc. rewrite main_eq. unfold bind.
  destruct (serve X fuel r _ _ _) as [[sp fc] w1|e w1|w1] eqn:Es; simpl.
  - apply serve_assigns in Es; [|done]. destruct fc as [command|]; [|done].
    destruct (shell_loop X fuel r sp (Some command) w1) as [| e w2|] eqn:El;
      simpl; try done.
    intros [= ->]. by eapply shell_loop_not_unbound.
  - intros [= ->]. by eapply serve_not_unbound.
  - done.
Qed.

Lemma no_unbound_local_without_chat_witness :
  truthy (chat shell_request) = false /\
  outcome (main demo 2 shell_request (boot (Tty []) [Some OptE])) <>
    Raised (UnboundLocalError "full_completion").
Proof.
  split; [reflexivity|].
  apply (no_unbound_local_without_chat demo 2 shell_request (Tty [])
           [Some OptE] "full_completion").
  reflexivity.
Defined.

(** ** Reading standard input *)

Lemma never_reads_again X fuel r sp p :
  emits (fun e => is_stdin_read e = false)
    (bind (serve X fuel r sp p)
       (fun locals => let '(stdin_passed, full_completion) := locals in
                      shell_loop X fuel r stdin_passed full_completion)).
Proof.
  unfold serve, resolve_role, check_get, SystemRole_get, interactive_loop,
    ReplHandler_handle, dual_loop, dual_round, handle_second_ai,
    handle_user_input, print, shell_loop, shell_round, run_command.
  emits_tac.
Qed.

(** X15. [main] reads standard input to its end exactly when input is
    piped and there is no repl id, on every path. *)
Theorem stdin_is_read_iff_piped_without_repl
    (X : Externals) (fuel : nat) (r : Request) (i : Stdin)
    (a : list (option ShellOption)) :
  existsb is_stdin_read (trace (world_of (main X fuel r (boot i a)))) =
  negb (is_tty i) && negb (truthy (repl r)).
Proof.
  rewrite main_eq. change (stdin (boot i a)) with i.
  destruct (never_reads_again X fuel r (negb (is_tty i))
              (effective_prompt r i) (after_read r (boot i a)))
    as (evs & -> & Hq).
  rewrite existsb_app.
  assert (existsb is_stdin_read evs = false) as ->.
  { induction Hq as [|e evs He _ IH]; simpl; [done|]. by rewrite He. }
  rewrite orb_false_r. unfold after_read. simpl.
  destruct i as [typed|content]; [done|]. simpl.
  by destruct (truthy (repl r)).
Qed.

(** * Properties with completions that may fail *)

(** ** The definitions with failure and the ones without *)

Lemma bind_ext {A B} (m m' : M A) (k k' : A -> M B) w :
  m w = m' w -> (forall a w1, k a w1 = k' a w1) ->
  bind m k w = bind m' k' w.
Proof. intros Hm Hk. unfold bind. rewrite Hm. by destruct (m' w). Qed.

Lemma while_ext {St} fuel cond (body body' : St -> M St) :
  (forall s w, body s w = body' s w) ->
  forall s w, while fuel cond body s w = while fuel cond body' s w.
Proof.
  intros Hb. induction fuel as [|fuel IH]; intros s w; simpl; [done|].
  rewrite Hb. destruct (cond s); [|done]. by destruct (body' s w).
Qed.

(** What follows a computation that never returns does not matter. *)
Lemma bind_stuck_ext {A B C} (m : M A) (k : A -> M B) (k' : A -> M C) w :
  never_returns m ->
  outcome (bind m k w) = outcome (bind m k' w) /\
  world_of (bind m k w) = world_of (bind m k' w).
Proof.
  intros Hm. unfold bind. destruct (m w) as [a w1| |] eqn:E; [|done..].
  by apply Hm in E.
Qed.

Lemma emits_handle_f (Q : Event -> Prop) X fails h p r id c :
  (forall c' a, Q (EHandle c' a)) -> emits Q (handle_f X fails h p r id c).
Proof.
  intros HQ w. unfold handle_f. destruct (fails _ _); simpl.
  - exists []. by rewrite app_nil_r.
  - eexists. split; [done|]. by repeat constructor.
Qed.

Lemma raises_handle_f (P : Exn -> Prop) X fails h p r id c :
  P CompletionFailedError -> raises P (handle_f X fails h p r id c).
Proof.
  intros HP w e w'. unfold handle_f. destruct (fails _ _); [|done].
  by intros [= <- _].
Qed.

(** With a service that answers every call, the definitions with failure
    are the ones without. *)
Section Answers.

Context (X : Externals) (fails : list Event -> Call -> bool).
Hypothesis Hnf : never_fails fails.

Lemma handle_f_answers h p r id c w :
  handle_f X fails h p r id c w = handle X h p r id c w.
Proof. unfold handle_f, handle. by rewrite Hnf. Qed.

Ltac answers_step :=
  first
    [ apply handle_f_answers
    | apply bind_ext; [|intros ? ?]
    | apply while_ext; intros ? ?
    | match goal with
      | |- when ?c _ _ = when ?c _ _ => destruct c; simpl
      | |- (if ?c then _ else _) _ = _ => destruct c
      | |- (let '(_, _) := ?x in _) _ = _ => destruct x
      | |- (match ?x with _ => _ end) _ = _ => destruct x
      end
    | reflexivity ].

Lemma handle_user_input_f_answers h l r id c w :
  handle_user_input_f X fails h l r id c w = handle_user_input X h l r id c w.
Proof. unfold handle_user_input_f, handle_user_input. repeat answers_step. Qed.

Lemma interactive_loop_f_answers fuel h r w :
  interactive_loop_f X fails fuel h r w = interactive_loop X fuel h r w.
Proof.
  unfold interactive_loop_f, interactive_loop.
  repeat first [apply handle_user_input_f_answers | answers_step].
Qed.

Lemma dual_loop_f_answers fuel h1 h2 r vars w :
  dual_loop_f X fails fuel h1 h2 r vars w = dual_loop X fuel h1 h2 r vars w.
Proof.
  unfold dual_loop_f, dual_loop. apply while_ext. intros [p q] w1.
  unfold dual_round_f, dual_round. repeat answers_step.
Qed.

Lemma shell_loop_f_answers fuel r sp fc w :
  shell_loop_f X fails fuel r sp fc w = shell_loop X fuel r sp fc w.
Proof.
  unfold shell_loop_f, shell_loop. apply while_ext. intros [] w1.
  unfold shell_round_f, shell_round. repeat answers_step.
Qed.

Lemma serve_f_answers fuel r sp p w :
  serve_f X fails fuel r sp p w = serve X fuel r sp p w.
Proof.
  unfold serve_f, serve.
  repeat first
    [ apply interactive_loop_f_answers | apply dual_loop_f_answers
    | progress unfold ReplHandler_handle_f, ReplHandler_handle,
        handle_second_ai_f, handle_second_ai
    | answers_step ].
Qed.

Lemma main_f_answers fuel r w :
  main_f X fails fuel r w = main X fuel r w.
Proof.
  unfold main_f, main, before_shell_loop.
  repeat first
    [ apply serve_f_answers | apply shell_loop_f_answers | answers_step ].
Qed.

End Answers.

(** ** The confirmation loop and Describe *)

Lemma shell_round_f_starts X fails r fc :
  starts_with (EAsk confirm_text) (shell_round_f X fails r fc).
Proof.
  unfold shell_round_f. apply starts_with_bind; [apply typer_prompt_starts|].
  intros o. unfold run_command.
  repeat first [apply emits_handle_f; intros ? ? | emits_step].
Qed.

Lemma shell_loop_f_starts X fails fuel r fc :
  shell r = true ->
  starts_with (EAsk confirm_text) (shell_loop_f X fails (S fuel) r false fc).
Proof.
  intros Hs w. unfold shell_loop_f. rewrite while_unfold, Hs. simpl.
  apply (starts_with_bind _ (shell_round_f X fails r fc)
           (fun s => while fuel _ _ s)); [apply shell_round_f_starts|].
  intros []. apply emits_while. intros []. unfold shell_round_f, run_command.
  repeat first [apply emits_handle_f; intros ? ? | emits_step].
Qed.

Lemma shell_loop_f_never_returns X fails fuel r fc :
  shell r = true -> never_returns (shell_loop_f X fails fuel r false fc).
Proof.
  intros Hs. unfold shell_loop_f. rewrite Hs. apply while_true_never_returns.
Qed.

(** One round of the confirmation loop answered with Describe, with a
    command at hand. *)
Lemma describe_round X fails r command w rest :
  answers w = Some OptD :: rest ->
  let asked := trace w ++ [EAsk confirm_text; EChoice OptD] in
  let request := describe_call X r command in
  shell_round_f X fails r (Some command) w =
  if fails asked request
  then Raise CompletionFailedError
         {| stdin := stdin w; answers := rest; trace := asked |}
  else Done tt
         {| stdin := stdin w; answers := rest;
            trace := asked ++ [EHandle request (completion X asked request)] |}.
Proof.
  intros Ha asked request. unfold shell_round_f, bind, typer_prompt.
  rewrite Ha. unfold request, asked, describe_call. simpl. unfold handle_f.
  simpl. rewrite <- app_assoc. simpl.
  by destruct (fails _ _).
Qed.

(** C6. In the confirmation loop, with a command generated, the answer
    Describe requests one new completion, from the default handler with
    the shell-description role and the command as its prompt.  When that
    completion is answered the loop goes on from the same state: the next
    thing that happens is the confirmation prompt, and the loop does not
    return.  When it fails, the failure ends the loop. *)
Theorem describe_asks_and_repeats
    (X : Externals) (fails : list Event -> Call -> bool) (fuel : nat)
    (r : Request) (command : string) (w : World)
    (rest : list (option ShellOption)) :
  shell r = true ->
  answers w = Some OptD :: rest ->
  let asked := trace w ++ [EAsk confirm_text; EChoice OptD] in
  let request := describe_call X r command in
  let answer := completion X asked request in
  let run := shell_loop_f X fails (S (S fuel)) r false (Some command) w in
  outcome run <> Returned /\
  if fails asked request
  then run = Raise CompletionFailedError
               {| stdin := stdin w; answers := rest; trace := asked |}
  else
    run = shell_loop_f X fails (S fuel) r false (Some command)
            {| stdin := stdin w; answers := rest;
               trace := asked ++ [EHandle request answer] |} /\
    exists evs,
      trace (world_of run) =
      asked ++ EHandle request answer :: EAsk confirm_text :: evs.
Proof.
  intros Hs Ha asked request answer run. split.
  { destruct run eqn:E; try done.
    by apply shell_loop_f_never_returns in E. }
  assert (run =
          bind (shell_round_f X fails r (Some command))
            (fun _ => shell_loop_f X fails (S fuel) r false (Some command))
            w) as ->.
  { unfold run, shell_loop_f. rewrite while_unfold, Hs. simpl.
    unfold bind. by destruct (shell_round_f _ _ _ _ _) as [[] ?| |]. }
  unfold bind. rewrite (describe_round X fails r command w rest Ha).
  fold asked request answer. destruct (fails asked request); [done|].
  split; [done|].
  destruct (shell_loop_f_starts X fails fuel r (Some command) Hs
              {| stdin := stdin w; answers := rest;
                 trace := asked ++ [EHandle request answer] |})
    as (evs & ->).
  exists evs. simpl. by rewrite <- app_assoc.
Qed.

Lemma describe_asks_and_repeats_witness :
  (shell shell_request = true /\
   answers (boot (Tty []) [Some OptD; Some OptA]) =
     Some OptD :: [Some OptA]) /\
  outcome (shell_loop_f demo no_faults 2 shell_request false (Some "ls -la")
             (boot (Tty []) [Some OptD; Some OptA])) <> Returned /\
  shell_loop_f demo no_faults 2 shell_request false (Some "ls -la")
    (boot (Tty []) [Some OptD; Some OptA]) =
  shell_loop_f demo no_faults 1 shell_request false (Some "ls -la")
    {| stdin := Tty []; answers := [Some OptA];
       trace :=
         [EAsk confirm_text; EChoice OptD;
          EHandle (describe_call demo shell_request "ls -la") "-<ls -la>"] |}
  /\
  exists evs,
    trace (world_of
             (shell_loop_f demo no_faults 2 shell_request false
                (Some "ls -la") (boot (Tty []) [Some OptD; Some OptA]))) =
    [EAsk confirm_text; EChoice OptD] ++
    EHandle (describe_call demo shell_request "ls -la") "-<ls -la>"
    :: EAsk confirm_text :: evs.
Proof.
  split; [by split|].
  apply (describe_asks_and_repeats demo no_faults 0 shell_request "ls -la"
           (boot (Tty []) [Some OptD; Some OptA]) [Some OptA]);
    reflexivity.
Defined.

(** When the description fails, the confirmation loop ends with the
    failure. *)
Example describe_fails :
  main_f demo (fun _ c => bool_decide (c_prompt c = Some "-<list files>"))
    3 shell_request (boot (Tty []) [Some OptD; Some OptA]) =
  Raise CompletionFailedError
    {| stdin := Tty []; answers := [Some OptA];
       trace :=
         [ECheckGet true false false;
          EHandle (call_of (DefaultHandler (get_role demo SHELL))
                     (Some "list files") shell_request None true)
                  "-<list files>";
          EAsk confirm_text; EChoice OptD] |}.
Proof. reflexivity. Qed.

(** With no completion at hand (the one-shot path with the shell flag),
    Describe has no command to describe and ends the run. *)
Example describe_without_a_completion :
  main_f demo no_faults 2 one_shot_shell (boot (Tty []) [Some OptD]) =
  Raise (UnboundLocalError "full_completion")
    {| stdin := Tty []; answers := [];
       trace :=
         [ECheckGet true false false;
          EHandle (call_of (ChatHandler (Some "c1") (get_role demo SHELL))
                     (Some "yo") one_shot_shell (Some "c1") true)
                  "c1<yo>";
          EAsk confirm_text; EChoice OptD] |}.
Proof. reflexivity. Qed.

(** ** The interactive loop *)

(** [lines_from] is what repeated [read_line] delivers. *)
Lemma read_line_lines c s :
  lines_from (String c s) =
  (read_line (String c s)).1 :: lines_from (read_line (String c s)).2.
Proof.
  revert c. induction s as [|c' s IH]; intros c; simpl.
  - by destruct (Ascii.eqb c "010"%char).
  - destruct (Ascii.eqb c "010"%char) eqn:E; [done|].
    specialize (IH c'). simpl in IH. rewrite IH.
    destruct (Ascii.eqb c' "010"%char); [done|].
    by destruct (read_line s).
Qed.

(** [input] on any standard input: the end of the stream, or the next
    line. *)
Lemma input_next text w :
  input text w =
  match lines_of (stdin w) with
  | [] =>
      Raise EOFError {| stdin := stdin w; answers := answers w;
                        trace := trace w ++ [EAsk text] |}
  | l :: _ =>
      Done l {| stdin := after_line (stdin w); answers := answers w;
                trace := trace w ++ [EAsk text; ELine l] |}
  end.
Proof.
  unfold input. destruct (stdin w) as [[|l ls]|[|c s]] eqn:E.
  - done.
  - simpl. by rewrite <- app_assoc.
  - done.
  - unfold lines_of, after_line. rewrite read_line_lines.
    destruct (read_line (String c s)) as [l rest]. simpl.
    by rewrite <- app_assoc.
Qed.

Lemma after_line_lines i : lines_of (after_line i) = tail (lines_of i).
Proof.
  destruct i as [typed|[|c s]]; [done..|].
  unfold lines_of, after_line. by rewrite read_line_lines.
Qed.

(** One exchange of the interactive loop. *)
Lemma handle_user_input_f_eq X fails h l r id c w :
  handle_user_input_f X fails h l r id c w =
  if fails (trace w) (call_of h (Some l) r id c)
  then Raise CompletionFailedError w
  else
    Done tt
      {| stdin := stdin w; answers := answers w;
         trace := trace w ++
           [EHandle (call_of h (Some l) r id c)
              (completion X (trace w) (call_of h (Some l) r id c));
            EPrint ("You: " +:+ l);
            EPrint ("AI: " +:+
                    completion X (trace w) (call_of h (Some l) r id c))] |}.
Proof.
  unfold handle_user_input_f, bind, handle_f, print, emit.
  destruct (fails (trace w) _); [done|]. simpl.
  by rewrite <- !app_assoc.
Qed.

(** One round of the interactive loop. *)
Lemma interactive_round_f_eq X fails h r w :
  bind (input "You: ")
    (fun l => handle_user_input_f X fails h l r (chat r) (cache r)) w =
  match lines_of (stdin w) with
  | [] =>
      Raise EOFError {| stdin := stdin w; answers := answers w;
                        trace := trace w ++ [EAsk "You: "] |}
  | l :: _ =>
      let heard := trace w ++ [EAsk "You: "; ELine l] in
      let request := call_of h (Some l) r (chat r) (cache r) in
      if fails heard request
      then Raise CompletionFailedError
             {| stdin := after_line (stdin w); answers := answers w;
                trace := heard |}
      else
        Done tt
          {| stdin := after_line (stdin w); answers := answers w;
             trace := heard ++
               [EHandle request (completion X heard request);
                EPrint ("You: " +:+ l);
                EPrint ("AI: " +:+ completion X heard request)] |}
  end.
Proof.
  unfold bind. rewrite input_next.
  destruct (lines_of (stdin w)) as [|l ls]; [done|].
  by rewrite handle_user_input_f_eq.
Qed.

Lemma interactive_loop_f_never_returns X fails fuel h r :
  never_returns (interactive_loop_f X fails fuel h r).
Proof. apply while_true_never_returns. Qed.

(** The interactive loop on any standard input, with a service that may
    fail: the lines are served one by one until the fuel, the input or the
    service gives out. *)
Lemma interactive_loop_f_runs X fails h r :
  forall fuel w,
    exists n,
      calls (trace (world_of (interactive_loop_f X fails fuel h r w))) =
        calls (trace w) ++
        map (fun l => call_of h (Some l) r (chat r) (cache r))
          (take n (lines_of (stdin w))) /\
      ((outcome (interactive_loop_f X fails fuel h r w) = Running /\
        n = fuel /\ (n <= length (lines_of (stdin w)))%nat) \/
       (outcome (interactive_loop_f X fails fuel h r w) = Raised EOFError /\
        n = length (lines_of (stdin w)) /\ (n < fuel)%nat) \/
       (outcome (interactive_loop_f X fails fuel h r w) =
          Raised CompletionFailedError /\ (n < fuel)%nat /\
        exists l tr, lines_of (stdin w) !! n = Some l /\
          fails tr (call_of h (Some l) r (chat r) (cache r)) = true)).
Proof.
  unfold interactive_loop_f.
  induction fuel as [|fuel IH]; intros w.
  { exists 0%nat. simpl. rewrite ?take_0, app_nil_r. split; [done|].
    left. repeat split. lia. }
  rewrite while_unfold. cbv beta iota. rewrite interactive_round_f_eq.
  destruct (lines_of (stdin w)) as [|l ls] eqn:El.
  { exists 0%nat. simpl. rewrite calls_app, !app_nil_r.
    split; [done|]. right. left. repeat split. lia. }
  cbv zeta. destruct (fails _ _) eqn:Ef.
  { exists 0%nat. simpl. rewrite calls_app, !app_nil_r.
    split; [done|]. right. right. split; [done|]. split; [lia|].
    by exists l, (trace w ++ [EAsk "You: "; ELine l]). }
  match goal with
  | |- context [while fuel _ _ _ ?w1] => destruct (IH w1) as (n & Hc & Ho)
  end.
  simpl in Hc, Ho. rewrite after_line_lines, El in Hc, Ho. simpl in Hc, Ho.
  exists (S n). simpl. rewrite Hc, !calls_app. simpl.
  rewrite !app_nil_r, <- app_assoc. split; [done|].
  destruct Ho as [(-> & -> & ?)|[(-> & -> & ?)|(-> & ? & l' & tr & ? & ?)]].
  - left. repeat split. lia.
  - right. left. repeat split. lia.
  - right. right. split; [done|]. split; [lia|]. by exists l', tr.
Qed.

(** C7 as stated fails: [sgpt --interactive --repl r1 --role poet] with two
    lines piped in serves both lines and then ends by itself with
    [EOFError]: no interrupt has come, the input is over. *)
Lemma interactive_loop_ends_with_the_piped_input :
  main_f demo no_faults 3 (with_repl "r1" interactive_poet)
    (boot (Pipe ("a" +:+ LF +:+ "b" +:+ LF)) []) =
  Raise EOFError
    {| stdin := Pipe ""; answers := [];
       trace :=
         [ERoleGet (Some "poet");
          EAsk "You: "; ELine "a";
          EHandle (call_of (ChatHandler None poet) (Some "a")
                     (with_repl "r1" interactive_poet) None true) "-<a>";
          EPrint "You: a"; EPrint "AI: -<a>";
          EAsk "You: "; ELine "b";
          EHandle (call_of (ChatHandler None poet) (Some "b")
                     (with_repl "r1" interactive_poet) None true) "-<b>";
          EPrint "You: b"; EPrint "AI: -<b>";
          EAsk "You: "] |}.
Proof. reflexivity. Qed.

(** C7, amended.  The interactive loop has no normal exit, and no line it
    reads ends it: each line is sent to the chat handler, in order.  After
    [fuel] rounds it is still running, having served [fuel] lines; or it
    ended with [EOFError] because standard input was over, after serving
    every line; or it ended with [CompletionFailedError] because the
    completion for the next line failed. *)
Theorem interactive_loop_ends_only_by_exception
    (X : Externals) (fails : list Event -> Call -> bool) (fuel : nat)
    (h : Handler) (r : Request) (w : World) :
  let run := interactive_loop_f X fails fuel h r w in
  let lines := lines_of (stdin w) in
  let request l := call_of h (Some l) r (chat r) (cache r) in
  outcome run <> Returned /\
  exists n,
    calls (trace (world_of run)) =
      calls (trace w) ++ map request (take n lines) /\
    ((outcome run = Running /\ n = fuel /\ (n <= length lines)%nat) \/
     (outcome run = Raised EOFError /\ n = length lines /\ (n < fuel)%nat) \/
     (outcome run = Raised CompletionFailedError /\ (n < fuel)%nat /\
      exists l tr, lines !! n = Some l /\ fails tr (request l) = true)).
Proof.
  intros run lines request. split.
  - destruct run eqn:E; try done.
    by apply interactive_loop_f_never_returns in E.
  - apply interactive_loop_f_runs.
Qed.

(** The same loop when a completion fails: the second line is never
    served. *)
Example interactive_loop_ends_with_a_failed_completion :
  main_f demo (fun _ c => bool_decide (c_prompt c = Some "b")) 9
    interactive_poet (boot (Tty ["a"; "b"; "c"]) []) =
  Raise CompletionFailedError
    {| stdin := Tty ["c"]; answers := [];
       trace :=
         [ERoleGet (Some "poet");
          EAsk "You: "; ELine "a";
          EHandle (call_of (ChatHandler None poet) (Some "a")
                     interactive_poet None true) "-<a>";
          EPrint "You: a"; EPrint "AI: -<a>";
          EAsk "You: "; ELine "b"] |}.
Proof. reflexivity. Qed.

(** ** What interactive mode shows *)

Lemma main_f_eq X fails fuel r w :
  main_f X fails fuel r w =
  bind (serve_f X fails fuel r (negb (is_tty (stdin w)))
          (effective_prompt r (stdin w)))
    (fun locals => let '(stdin_passed, full_completion) := locals in
                   shell_loop_f X fails fuel r stdin_passed full_completion)
    (after_read r w).
Proof. unfold main_f. unfold bind at 1 2. by rewrite read_prompt_eq. Qed.

(** In interactive mode [main] is the role lookup and then the interactive
    loop: nothing after the loop is ever run. *)
Lemma serve_f_interactive X fails fuel r sp p :
  interactive_mode r = true ->
  never_returns (serve_f X fails fuel r sp p).
Proof.
  intros Hi. unfold serve_f. rewrite Hi. apply bind_never_returns_l. simpl.
  apply bind_never_returns_r. intros ro. apply while_true_never_returns.
Qed.

Lemma main_f_interactive X fails fuel r w :
  interactive_mode r = true ->
  let w1 := {| stdin := stdin (after_read r w);
               answers := answers (after_read r w);
               trace := trace (after_read r w) ++ [ERoleGet (role r)] |} in
  match lookup_role X (role r) with
  | None => main_f X fails fuel r w = Raise (UnknownRoleError (role r)) w1
  | Some ro =>
      outcome (main_f X fails fuel r w) =
        outcome (interactive_loop_f X fails fuel (ChatHandler (chat r) ro) r w1)
      /\
      world_of (main_f X fails fuel r w) =
        world_of (interactive_loop_f X fails fuel (ChatHandler (chat r) ro) r
                    w1)
  end.
Proof.
  intros Hi w1. rewrite main_f_eq. unfold bind, serve_f, when. rewrite Hi.
  unfold SystemRole_get, bind, emit. fold w1.
  destruct (lookup_role X (role r)) as [ro|]; [|done]. unfold ret.
  destruct (interactive_loop_f X fails fuel _ r w1) eqn:E; try done.
  by apply while_true_never_returns in E.
Qed.

Lemma shown_app tr tr' : shown (tr ++ tr') = shown tr ++ shown tr'.
Proof. apply omap_app. Qed.

Lemma after_read_shows_nothing r w :
  printed (trace (after_read r w)) = printed (trace w) /\
  handles (trace (after_read r w)) = handles (trace w) /\
  shown (trace (after_read r w)) = shown (trace w).
Proof.
  unfold after_read. destruct (stdin w); [done|].
  destruct (truthy (repl r)); [done|]. simpl.
  by rewrite printed_app, handles_app, shown_app, !app_nil_r.
Qed.

(** What the interactive loop shows, from a state where everything shown
    so far is whole turns. *)
Lemma interactive_loop_f_shows X fails h r :
  forall fuel w,
    printed (trace w) = flat_map echo (handles (trace w)) ->
    shown (trace w) = flat_map turn (handles (trace w)) ->
    let tr := trace (world_of (interactive_loop_f X fails fuel h r w)) in
    printed tr = flat_map echo (handles tr) /\
    exists tail, (tail = [] \/ tail = ["You: "]) /\
      shown tr = flat_map turn (handles tr) ++ tail.
Proof.
  unfold interactive_loop_f.
  induction fuel as [|fuel IH]; intros w Hp Hs.
  { simpl. split; [done|]. exists []. by rewrite app_nil_r; auto. }
  cbv zeta. rewrite while_unfold. cbv beta iota.
  rewrite interactive_round_f_eq.
  destruct (lines_of (stdin w)) as [|l ls].
  { simpl. rewrite printed_app, handles_app, shown_app, Hp, Hs. simpl.
    rewrite !app_nil_r. split; [done|]. exists ["You: "]. auto. }
  cbv zeta. destruct (fails _ _).
  { simpl. rewrite printed_app, handles_app, shown_app, Hp, Hs. simpl.
    rewrite !app_nil_r. split; [done|]. exists ["You: "]. auto. }
  apply IH; simpl.
  - rewrite !printed_app, !handles_app, flat_map_app, Hp. simpl.
    by rewrite !app_nil_r.
  - rewrite !shown_app, !handles_app, flat_map_app, Hs. simpl.
    by rewrite ?app_nil_r, <- app_assoc.
Qed.

(** X6. Whatever the input, whether the role exists and whether the
    completions answer: what interactive mode writes with [print] is, for
    each answered completion in order, the line [You: <prompt>] and then the
    line [AI: <answer>]; with the text [You: ] that [input] shows before
    each line it reads, everything shown is one turn per answered
    completion, followed by at most one more [You: ], for the line that
    was never answered. *)
Theorem interactive_mode_prints_the_exchanges
    (X : Externals) (fails : list Event -> Call -> bool) (fuel : nat)
    (r : Request) (i : Stdin) (a : list (option ShellOption)) :
  interactive_mode r = true ->
  let tr := trace (world_of (main_f X fails fuel r (boot i a))) in
  printed tr = flat_map echo (handles tr) /\
  exists tail, (tail = [] \/ tail = ["You: "]) /\
    shown tr = flat_map turn (handles tr) ++ tail.
Proof.
  intros Hi. pose proof (main_f_interactive X fails fuel r (boot i a) Hi) as H.
  destruct (after_read_shows_nothing r (boot i a)) as (Hp & Hh & Hs).
  simpl in H. destruct (lookup_role X (role r)) as [ro|].
  - destruct H as [_ ->]. apply interactive_loop_f_shows; simpl.
    + by rewrite printed_app, handles_app, Hp, Hh.
    + by rewrite shown_app, handles_app, Hs, Hh.
  - rewrite H. simpl.
    rewrite printed_app, handles_app, shown_app, Hp, Hh, Hs. simpl.
    split; [done|]. exists []. auto.
Qed.

Lemma interactive_mode_prints_the_exchanges_witness :
  interactive_mode interactive_poet = true /\
  printed (trace (world_of
             (main_f demo no_faults 2 interactive_poet (boot (Tty ["a"]) []))))
  = flat_map echo
      (handles (trace (world_of
                  (main_f demo no_faults 2 interactive_poet
                     (boot (Tty ["a"]) []))))) /\
  exists tail, (tail = [] \/ tail = ["You: "]) /\
    shown (trace (world_of
             (main_f demo no_faults 2 interactive_poet (boot (Tty ["a"]) []))))
    = flat_map turn
        (handles (trace (world_of
                    (main_f demo no_faults 2 interactive_poet
                       (boot (Tty ["a"]) []))))) ++ tail.
Proof.
  split; [reflexivity|].
  apply (interactive_mode_prints_the_exchanges demo no_faults 2
           interactive_poet (Tty ["a"]) []); reflexivity.
Defined.

(** ** What interactive mode looks at *)

(** In interactive mode [serve] looks at the role, the chat id and the
    options of the completion, and at nothing else. *)
Lemma serve_f_interactive_view X fails fuel r sp p p' w :
  interactive_mode r = true ->
  outcome (serve_f X fails fuel r sp p w) =
    outcome (serve_f X fails fuel (interactive_view r) sp p' w) /\
  world_of (serve_f X fails fuel r sp p w) =
    world_of (serve_f X fails fuel (interactive_view r) sp p' w).
Proof.
  intros Hi. unfold serve_f. simpl. rewrite Hi.
  apply (bind_stuck_ext
           (when true
              (bind (SystemRole_get X (role r))
                 (fun role0 =>
                    interactive_loop_f X fails fuel (ChatHandler (chat r) role0)
                      r)))).
  simpl. apply bind_never_returns_r. intros ro.
  apply while_true_never_returns.
Qed.

(** X7. In interactive mode the prompt argument, the mode flags, the editor
    flag and the second-AI options are never looked at: the run is the run
    of the same request without them, and it has no normal exit. *)
Theorem interactive_mode_looks_at_no_other_option
    (X : Externals) (fails : list Event -> Call -> bool) (fuel : nat)
    (r : Request) (w : World) :
  interactive_mode r = true ->
  main_f X fails fuel r w = main_f X fails fuel (interactive_view r) w /\
  outcome (main_f X fails fuel r w) <> Returned.
Proof.
  intros Hi.
  assert (never_returns (main_f X fails fuel r)) as Hn.
  { unfold main_f. apply bind_never_returns_l, bind_never_returns_r.
    intros [sp p]. by apply serve_f_interactive. }
  split.
  - rewrite !main_f_eq.
    change (after_read (interactive_view r) w) with (after_read r w).
    pose proof (serve_f_interactive_view X fails fuel r
                  (negb (is_tty (stdin w))) (effective_prompt r (stdin w))
                  (effective_prompt (interactive_view r) (stdin w))
                  (after_read r w) Hi) as [Ho Hw].
    pose proof (serve_f_interactive X fails fuel r (negb (is_tty (stdin w)))
                  (effective_prompt r (stdin w)) Hi (after_read r w)) as Hr.
    pose proof (serve_f_interactive X fails fuel (interactive_view r)
                  (negb (is_tty (stdin w)))
                  (effective_prompt (interactive_view r) (stdin w)) Hi
                  (after_read r w)) as Hr'.
    unfold bind.
    destruct (serve_f X fails fuel r _ _ _) as [x w1|e w1|w1];
      [by destruct (Hr x w1)|..];
      destruct (serve_f X fails fuel (interactive_view r) _ _ _)
        as [x' w2|e' w2|w2]; simpl in *; try done;
      try (by destruct (Hr' x' w2)); congruence.
  - destruct (main_f X fails fuel r w) eqn:E; try done. by apply Hn in E.
Qed.

Lemma interactive_mode_looks_at_no_other_option_witness :
  interactive_mode (with_shell (with_code (with_prompt "hi" interactive_poet)))
    = true /\
  main_f demo no_faults 2
    (with_shell (with_code (with_prompt "hi" interactive_poet)))
    (boot (Tty ["a"]) []) =
  main_f demo no_faults 2
    (interactive_view
       (with_shell (with_code (with_prompt "hi" interactive_poet))))
    (boot (Tty ["a"]) []) /\
  outcome (main_f demo no_faults 2
             (with_shell (with_code (with_prompt "hi" interactive_poet)))
             (boot (Tty ["a"]) [])) <> Returned.
Proof.
  split; [reflexivity|].
  apply (interactive_mode_looks_at_no_other_option demo no_faults 2
           (with_shell (with_code (with_prompt "hi" interactive_poet)))
           (boot (Tty ["a"]) [])); reflexivity.
Defined.

(** ** Past the guards, with completions that may fail *)

Ltac emits_f_step :=
  first [ apply emits_handle_f; intros ? ? | emits_step ].

Lemma dual_loop_f_emits Q X fails fuel h1 h2 r vars :
  (forall e, Q e) -> emits Q (dual_loop_f X fails fuel h1 h2 r vars).
Proof.
  intros HQ. unfold dual_loop_f. apply emits_while. intros [p q].
  unfold dual_round_f, print. repeat emits_f_step; apply HQ.
Qed.

Lemma shell_loop_f_emits Q X fails fuel r sp fc :
  (forall e, Q e) -> emits Q (shell_loop_f X fails fuel r sp fc).
Proof.
  intros HQ. unfold shell_loop_f. apply emits_while. intros [].
  unfold shell_round_f, run_command. repeat emits_f_step; apply HQ.
Qed.

(** The role lines 192-196 settle on, when there is one. *)
Lemma resolve_role_eq X r ro w :
  (mode_count r <= 1)%nat ->
  resolved_role X r = Some ro ->
  resolve_role X r w =
  Done ro {| stdin := stdin w; answers := answers w;
             trace := trace w ++ [role_event r] |}.
Proof.
  intros Hm%Nat.leb_le Hro. unfold resolved_role in Hro.
  unfold resolve_role, role_event, check_get, SystemRole_get, bind, emit, ret.
  destruct (truthy (role r)); simpl.
  - by rewrite Hro.
  - unfold mode_count in Hm. rewrite Nat.ltb_antisym, Hm. simpl.
    by injection Hro as <-.
Qed.

(** What is left of [serve] when interactive mode is off, every guard
    passes, the role is there and there is no repl id. *)
Lemma serve_f_past_guards X fails fuel r sp p ro w :
  interactive_mode r = false ->
  truthy p || editor r = true ->
  (mode_count r <= 1)%nat ->
  truthy (repl r) = false ->
  editor r && sp = false ->
  resolved_role X r = Some ro ->
  serve_f X fails fuel r sp p w =
  (if truthy (chat r) then
     if second_ai r && is_not_None (second_ai_prompt r) then
       handle_second_ai_f X fails (ChatHandler (chat r) ro)
         (second_ai_prompt r) r (chat r) (cache r) ;;;
       ret (sp, None)
     else
       dual_loop_f X fails fuel (ChatHandler (chat r) ro)
         (ChatHandler (Some "second_ai") ro) r (p, second_ai_prompt r) ;;;
       ret (sp, None)
   else
     full_completion <-
       handle_f X fails (DefaultHandler ro) p r None (cache r) ;;
     ret (sp, Some full_completion))
    {| stdin := stdin w; answers := answers w;
       trace := trace w ++ [role_event r] |}.
Proof.
  intros Hi Hp Hm Hr He Hro. unfold serve_f, when. rewrite Hi, Hr, He.
  replace (negb (truthy p) && negb (editor r) && negb false) with false
    by (by rewrite andb_true_r, <- negb_orb, Hp).
  rewrite andb_false_r.
  pose proof Hm as Hm'%Nat.leb_le. rewrite Nat.ltb_antisym, Hm'. simpl.
  unfold bind at 1 2 3 4 5. simpl. unfold bind at 1.
  rewrite (resolve_role_eq X r ro w Hm Hro).
  unfold bind at 1. by simpl.
Qed.

Lemma passes_guards X r sp b :
  passes X r sp b = true ->
  interactive_mode r = false /\
  b || editor r = true /\
  (mode_count r <= 1)%nat /\
  truthy (repl r) = false /\
  editor r && sp = false /\
  (exists ro, resolved_role X r = Some ro) /\
  (truthy (chat r) = true ->
   second_ai r && is_not_None (second_ai_prompt r) = true).
Proof.
  intros Hp. unfold passes in Hp.
  repeat match goal with
         | H : _ && _ = true |- _ => apply andb_prop in H as [? ?]
         end.
  repeat match goal with
         | H : negb _ = true |- _ => apply negb_true_iff in H
         end.
  match goal with H : truthy (repl r) = false |- _ => rename H into Hr end.
  split; [done|]. split.
  { match goal with H : _ || _ || _ = true |- _ => rewrite Hr, orb_false_r in H end.
    done. }
  split; [by apply Nat.leb_le|]. split; [done|]. split; [done|]. split.
  - unfold resolved_role. destruct (truthy (role r)); [|by eauto].
    match goal with H : _ || is_not_None _ = true |- _ => simpl in H end.
    destruct (lookup_role X (role r)); [by eauto|done].
  - intros Hc.
    match goal with H : negb (truthy (chat r)) || _ = true |- _ =>
      by rewrite Hc in H end.
Qed.

Lemma main_f_past_guards X fails fuel r w ro :
  interactive_mode r = false ->
  truthy (effective_prompt r (stdin w)) || editor r = true ->
  (mode_count r <= 1)%nat ->
  truthy (repl r) = false ->
  editor r && negb (is_tty (stdin w)) = false ->
  resolved_role X r = Some ro ->
  main_f X fails fuel r w =
  bind
    (if truthy (chat r) then
       if second_ai r && is_not_None (second_ai_prompt r) then
         handle_second_ai_f X fails (ChatHandler (chat r) ro)
           (second_ai_prompt r) r (chat r) (cache r) ;;;
         ret (negb (is_tty (stdin w)), None)
       else
         dual_loop_f X fails fuel (ChatHandler (chat r) ro)
           (ChatHandler (Some "second_ai") ro) r
           (effective_prompt r (stdin w), second_ai_prompt r) ;;;
         ret (negb (is_tty (stdin w)), None)
     else
       full_completion <-
         handle_f X fails (DefaultHandler ro) (effective_prompt r (stdin w)) r
           None (cache r) ;;
       ret (negb (is_tty (stdin w)), Some full_completion))
    (fun locals => let '(stdin_passed, full_completion) := locals in
                   shell_loop_f X fails fuel r stdin_passed full_completion)
    {| stdin := stdin (after_read r w); answers := answers (after_read r w);
       trace := trace (after_read r w) ++ [role_event r] |}.
Proof.
  intros Hi Hp Hm Hr He Hro. rewrite main_f_eq. unfold bind at 1.
  rewrite (serve_f_past_guards X fails fuel r _ _ ro _ Hi Hp Hm Hr He Hro).
  reflexivity.
Qed.

Lemma handles_role_event r : handles [role_event r] = [].
Proof. unfold role_event. by destruct (truthy (role r)). Qed.

Lemma calls_role_event r : calls [role_event r] = [].
Proof. unfold role_event. by destruct (truthy (role r)). Qed.

Lemma prompts_role_event r : prompts [role_event r] = [].
Proof. unfold prompts. by rewrite calls_role_event. Qed.

Lemma addressees_role_event r : addressees [role_event r] = [].
Proof. unfold addressees. by rewrite calls_role_event. Qed.

Lemma run_commands_role_event r : run_commands [role_event r] = [].
Proof. unfold role_event. by destruct (truthy (role r)). Qed.

(** ** The dual loop *)

(** One round of the dual loop. *)
Lemma dual_round_f_eq X fails h1 h2 r p q w :
  dual_round_f X fails h1 h2 r (p, q) w =
  let c1 := call_of h1 p r (chat r) (cache r) in
  let c2 := call_of h2 q r (Some "second_ai") (cache r) in
  if fails (trace w) c1 then Raise CompletionFailedError w
  else
    let a1 := completion X (trace w) c1 in
    let tr1 := trace w ++ [EHandle c1 a1; EPrint ("First AI: " +:+ a1)] in
    if fails tr1 c2
    then Raise CompletionFailedError
           {| stdin := stdin w; answers := answers w; trace := tr1 |}
    else
      let a2 := completion X tr1 c2 in
      Done (Some a1, Some a2)
        {| stdin := stdin w; answers := answers w;
           trace := tr1 ++ [EHandle c2 a2; EPrint ("Second AI: " +:+ a2)] |}.
Proof.
  unfold dual_round_f, bind, handle_f, print, emit, ret. cbv zeta.
  destruct (fails (trace w) _); [done|]. simpl.
  rewrite <- !app_assoc. simpl.
  destruct (fails _ _); [done|]. simpl. by rewrite <- !app_assoc.
Qed.

Lemma dual_loop_f_never_returns X fails fuel h1 h2 r vars :
  never_returns (dual_loop_f X fails fuel h1 h2 r vars).
Proof. apply while_true_never_returns. Qed.

(** The dual loop with a service that may fail: whole rounds, until the
    fuel or the service gives out. *)
Lemma dual_loop_f_rounds X fails h1 h2 r :
  forall fuel vars w,
    exists more,
      addressees (trace w) ++
      concat (replicate fuel [(h1, chat r); (h2, Some "second_ai")]) =
      addressees (trace (world_of (dual_loop_f X fails fuel h1 h2 r vars w)))
      ++ more /\
      ((outcome (dual_loop_f X fails fuel h1 h2 r vars w) = Running /\
        more = []) \/
       (outcome (dual_loop_f X fails fuel h1 h2 r vars w) =
          Raised CompletionFailedError /\ more <> [] /\
        exists tr c, fails tr c = true)).
Proof.
  unfold dual_loop_f. induction fuel as [|fuel IH]; intros [p q] w.
  { exists []. simpl. split; [done|]. by left. }
  rewrite while_unfold. cbv beta iota. rewrite dual_round_f_eq. cbv zeta.
  destruct (fails (trace w) _) eqn:E1.
  { eexists. split; [reflexivity|]. right. split; [done|].
    split; [done|]. eauto. }
  destruct (fails (trace w ++ _) _) eqn:E2.
  { eexists ((h2, Some "second_ai") :: _). simpl.
    rewrite addressees_app. simpl. rewrite <- app_assoc. simpl.
    split; [reflexivity|]. right. split; [done|]. split; [done|]. eauto. }
  match goal with
  | |- context [while fuel _ _ ?v ?w1] =>
      destruct (IH v w1) as (more & Hm & Ho)
  end.
  exists more. split; [|done]. rewrite <- Hm. simpl.
  rewrite !addressees_app. simpl. by rewrite <- !app_assoc.
Qed.

(** On the dual-loop path [main] is the dual loop, run after the role
    resolution. *)
Lemma main_f_dual X fails fuel r w ro :
  interactive_mode r = false ->
  truthy (effective_prompt r (stdin w)) || editor r = true ->
  (mode_count r <= 1)%nat ->
  truthy (repl r) = false ->
  editor r && negb (is_tty (stdin w)) = false ->
  resolved_role X r = Some ro ->
  truthy (chat r) = true ->
  second_ai r && is_not_None (second_ai_prompt r) = false ->
  let w1 := {| stdin := stdin (after_read r w);
               answers := answers (after_read r w);
               trace := trace (after_read r w) ++ [role_event r] |} in
  let loop :=
    dual_loop_f X fails fuel (ChatHandler (chat r) ro)
      (ChatHandler (Some "second_ai") ro) r
      (effective_prompt r (stdin w), second_ai_prompt r) w1 in
  outcome (main_f X fails fuel r w) = outcome loop /\
  world_of (main_f X fails fuel r w) = world_of loop.
Proof.
  intros Hi Hp Hm Hr He Hro Hc Hs w1 loop.
  rewrite (main_f_past_guards X fails fuel r w ro Hi Hp Hm Hr He Hro).
  rewrite Hc, Hs. unfold bind. fold w1. fold loop.
  destruct loop as [x w2|e w2|w2] eqn:E; [|done..].
  by apply dual_loop_f_never_returns in E.
Qed.

(** X8. With a chat id, past the guards, with the role resolved, and
    unless both the second-AI flag and a second-AI prompt are given,
    [main] never comes out of the dual loop normally.  After any number of
    rounds it is still running, and each round is one completion by the
    handler of [chat] under [chat] followed by one by the handler of
    [second_ai] under [second_ai]; or a completion failed, and the run ended
    with that failure part of the way.  This includes a plain [--chat]
    request without any second-AI option. *)
Theorem chat_without_one_shot_never_ends
    (X : Externals) (fails : list Event -> Call -> bool) (fuel : nat)
    (r : Request) (i : Stdin) (a : list (option ShellOption)) (ro : Role) :
  interactive_mode r = false ->
  truthy (effective_prompt r i) || editor r = true ->
  (mode_count r <= 1)%nat ->
  truthy (repl r) = false ->
  editor r && negb (is_tty i) = false ->
  resolved_role X r = Some ro ->
  truthy (chat r) = true ->
  second_ai r && is_not_None (second_ai_prompt r) = false ->
  let run := main_f X fails fuel r (boot i a) in
  outcome run <> Returned /\
  exists more,
    concat (replicate fuel (dual_pair r ro)) =
      addressees (trace (world_of run)) ++ more /\
    ((outcome run = Running /\ more = []) \/
     (outcome run = Raised CompletionFailedError /\ more <> [] /\
      exists tr c, fails tr c = true)).
Proof.
  intros Hi Hp Hm Hr He Hro Hc Hs run.
  destruct (main_f_dual X fails fuel r (boot i a) ro Hi Hp Hm Hr He Hro Hc Hs)
    as [Ho Hw].
  unfold run. rewrite Ho, Hw. split.
  { match goal with
    | |- outcome ?m <> _ =>
        destruct m eqn:E; [by apply dual_loop_f_never_returns in E|done..]
    end. }
  match goal with
  | |- context [dual_loop_f X fails fuel ?h1 ?h2 r ?v ?w1] =>
      destruct (dual_loop_f_rounds X fails h1 h2 r fuel v w1)
        as (more & Hmore & Hcases)
  end.
  exists more. split; [|done]. rewrite <- Hmore. simpl.
  rewrite addressees_app, addressees_role_event, app_nil_r.
  unfold after_read; simpl; destruct i as [typed|content]; simpl;
    [done|by rewrite Hr].
Qed.

Lemma chat_without_one_shot_never_ends_witness :
  (interactive_mode ping_pong = false /\
   truthy (effective_prompt ping_pong (Tty [])) || editor ping_pong = true /\
   (mode_count ping_pong <= 1)%nat /\
   truthy (repl ping_pong) = false /\
   editor ping_pong && negb (is_tty (Tty [])) = false /\
   resolved_role demo ping_pong = Some (derived_role demo ping_pong) /\
   truthy (chat ping_pong) = true /\
   second_ai ping_pong && is_not_None (second_ai_prompt ping_pong) = false)
  /\
  outcome (main_f demo no_faults 2 ping_pong (boot (Tty []) [])) <> Returned /\
  exists more,
    concat (replicate 2 (dual_pair ping_pong (derived_role demo ping_pong))) =
      addressees (trace (world_of
                    (main_f demo no_faults 2 ping_pong (boot (Tty []) []))))
      ++ more /\
    ((outcome (main_f demo no_faults 2 ping_pong (boot (Tty []) [])) = Running
      /\ more = []) \/
     (outcome (main_f demo no_faults 2 ping_pong (boot (Tty []) [])) =
        Raised CompletionFailedError /\ more <> [] /\
      exists tr c, no_faults tr c = true)).
Proof.
  split; [repeat split; small_modes|].
  apply (chat_without_one_shot_never_ends demo no_faults 2 ping_pong (Tty [])
           [] (derived_role demo ping_pong));
    first [reflexivity | small_modes].
Defined.

(** ** The first round of the dual loop *)

(** The first round of the dual loop: what it sends, as far as it gets. *)
Lemma dual_loop_f_first_prompts X fails fuel h1 h2 r p q w :
  exists sent,
    prompts (trace (world_of (dual_loop_f X fails fuel h1 h2 r (p, q) w))) =
      prompts (trace w) ++ sent /\
    (sent = [] \/ sent = [p] \/ exists rest, sent = p :: q :: rest) /\
    (never_fails fails -> fuel <> 0%nat ->
     exists rest, sent = p :: q :: rest).
Proof.
  unfold dual_loop_f. destruct fuel as [|fuel].
  { exists []. simpl. rewrite app_nil_r. split; [done|]. split; [by left|].
    done. }
  rewrite while_unfold. cbv beta iota. rewrite dual_round_f_eq. cbv zeta.
  destruct (fails (trace w) _) eqn:E1.
  { exists []. simpl. rewrite app_nil_r. split; [done|]. split; [by left|].
    intros Hnf. by rewrite Hnf in E1. }
  destruct (fails (trace w ++ _) _) eqn:E2.
  { exists [p]. simpl. rewrite prompts_app. split; [done|].
    split; [by right; left|]. intros Hnf. by rewrite Hnf in E2. }
  match goal with
  | |- context [while fuel _ ?b ?v ?w1] =>
      destruct (dual_loop_f_emits (fun _ => True) X fails fuel h1 h2 r v
                  ltac:(done) w1) as (evs & Hevs & _)
  end.
  unfold dual_loop_f in Hevs. rewrite Hevs. simpl.
  exists (p :: q :: prompts evs). rewrite !prompts_app. simpl.
  rewrite <- ?app_assoc. simpl.
  split; [reflexivity|]. split; [right; right; by eexists|].
  intros _ _. by eexists.
Qed.

(** X9. On that path the first prompt requested, if any, is the prompt
    [main] works with, for the first agent, and the second, if any, the
    second-AI prompt as given, for the second agent: [None] when the option
    is absent.  When the completions answer, both are requested. *)
Theorem dual_loop_starts_with_both_prompts
    (X : Externals) (fails : list Event -> Call -> bool) (fuel : nat)
    (r : Request) (i : Stdin) (a : list (option ShellOption)) (ro : Role) :
  interactive_mode r = false ->
  truthy (effective_prompt r i) || editor r = true ->
  (mode_count r <= 1)%nat ->
  truthy (repl r) = false ->
  editor r && negb (is_tty i) = false ->
  resolved_role X r = Some ro ->
  truthy (chat r) = true ->
  second_ai r && is_not_None (second_ai_prompt r) = false ->
  let sent := prompts (trace (world_of (main_f X fails fuel r (boot i a)))) in
  (forall p, sent !! 0%nat = Some p -> p = effective_prompt r i) /\
  (forall q, sent !! 1%nat = Some q -> q = second_ai_prompt r) /\
  (never_fails fails -> fuel <> 0%nat ->
   exists rest, sent = effective_prompt r i :: second_ai_prompt r :: rest).
Proof.
  intros Hi Hp Hm Hr He Hro Hc Hs sent.
  assert (exists sent',
            sent = sent' /\
            (sent' = [] \/ sent' = [effective_prompt r i] \/
             exists rest,
               sent' = effective_prompt r i :: second_ai_prompt r :: rest) /\
            (never_fails fails -> fuel <> 0%nat ->
             exists rest,
               sent' = effective_prompt r i :: second_ai_prompt r :: rest))
    as (sent' & -> & Hsent & Hall).
  { destruct (main_f_dual X fails fuel r (boot i a) ro Hi Hp Hm Hr He Hro Hc
                Hs) as [_ Hw].
    unfold sent. rewrite Hw.
    match goal with
    | |- context [dual_loop_f X fails fuel ?h1 ?h2 r (?p, ?q) ?w1] =>
        destruct (dual_loop_f_first_prompts X fails fuel h1 h2 r p q w1)
          as (sent' & Hsent' & Hcases & Hall)
    end.
    exists sent'. split; [|done]. rewrite Hsent'. simpl.
    rewrite prompts_app, prompts_role_event, app_nil_r.
    unfold after_read; simpl; destruct i as [typed|content]; simpl;
      [done|by rewrite Hr]. }
  split; [|split; [|done]].
  - intros p. destruct Hsent as [->|[->|(rest & ->)]]; simpl; congruence.
  - intros q. destruct Hsent as [->|[->|(rest & ->)]]; simpl; congruence.
Qed.

Lemma dual_loop_starts_with_both_prompts_witness :
  (interactive_mode ping_pong = false /\
   truthy (effective_prompt ping_pong (Tty [])) || editor ping_pong = true /\
   (mode_count ping_pong <= 1)%nat /\
   truthy (repl ping_pong) = false /\
   editor ping_pong && negb (is_tty (Tty [])) = false /\
   resolved_role demo ping_pong = Some (derived_role demo ping_pong) /\
   truthy (chat ping_pong) = true /\
   second_ai ping_pong && is_not_None (second_ai_prompt ping_pong) = false)
  /\
  (forall p,
     prompts (trace (world_of
                (main_f demo no_faults 1 ping_pong (boot (Tty []) []))))
     !! 0%nat = Some p -> p = effective_prompt ping_pong (Tty [])) /\
  (forall q,
     prompts (trace (world_of
                (main_f demo no_faults 1 ping_pong (boot (Tty []) []))))
     !! 1%nat = Some q -> q = second_ai_prompt ping_pong) /\
  (never_fails no_faults -> 1%nat <> 0%nat ->
   exists rest,
     prompts (trace (world_of
                (main_f demo no_faults 1 ping_pong (boot (Tty []) [])))) =
     effective_prompt ping_pong (Tty []) :: second_ai_prompt ping_pong :: rest).
Proof.
  split; [repeat split; small_modes|].
  apply (dual_loop_starts_with_both_prompts demo no_faults 1 ping_pong
           (Tty []) [] (derived_role demo ping_pong));
    first [reflexivity | small_modes].
Defined.

(** ** A whole session of [--shell] *)

(** One round of the confirmation loop with a command at hand and an answer
    waiting, with a service that may fail. *)
Lemma shell_round_f_eq X fails r command w a rest :
  answers w = a :: rest ->
  shell_round_f X fails r (Some command) w =
  let o := default (default_option X) a in
  let asked := trace w ++ [EAsk confirm_text; EChoice o] in
  match o with
  | OptE | OptY =>
      Done tt {| stdin := stdin w; answers := rest;
                 trace := asked ++ [ERunCommand command] |}
  | OptD =>
      if fails asked (describe_call X r command)
      then Raise CompletionFailedError
             {| stdin := stdin w; answers := rest; trace := asked |}
      else Done tt
             {| stdin := stdin w; answers := rest;
                trace := asked ++
                  [EHandle (describe_call X r command)
                     (completion X asked (describe_call X r command))] |}
  | OptA => Done tt {| stdin := stdin w; answers := rest; trace := asked |}
  end.
Proof.
  intros Ha. unfold shell_round_f, bind, typer_prompt. rewrite Ha.
  fold (default_option X). unfold describe_call. cbv zeta.
  destruct (default (default_option X) a); simpl;
    unfold run_command, emit, handle_f, ret; simpl;
    rewrite <- ?app_assoc; simpl; try done.
  by destruct (fails _ _).
Qed.

(** The confirmation loop with a command at hand, on a terminal that
    answers [replies] and then no more: the command is run once per reply
    that takes the Execute branch, until the replies or the service give
    out. *)
Lemma shell_loop_f_counts X fails r command :
  shell r = true ->
  forall replies fuel w,
    answers w = replies ->
    (length replies < fuel)%nat ->
    exists n,
      (n <= length replies)%nat /\
      run_commands
        (trace (world_of (shell_loop_f X fails fuel r false (Some command) w)))
      = run_commands (trace w) ++
        replicate (how_many (executes (default_option X)) (take n replies))
          command /\
      ((outcome (shell_loop_f X fails fuel r false (Some command) w) =
          Raised Abort /\ n = length replies) \/
       (outcome (shell_loop_f X fails fuel r false (Some command) w) =
          Raised CompletionFailedError /\
        (exists a, replies !! n = Some a /\
                   describes (default_option X) a = true) /\
        exists tr c, fails tr c = true)).
Proof.
  intros Hs. unfold shell_loop_f. rewrite Hs.
  change (fun _ : () => true && negb false) with (fun _ : () => true).
  induction replies as [|a rest IH]; intros fuel w Ha Hlt;
    (destruct fuel as [|fuel]; [simpl in Hlt; lia|]);
    rewrite while_unfold; cbv beta iota.
  - unfold shell_round_f, bind, typer_prompt. rewrite Ha. simpl.
    exists 0%nat. rewrite run_commands_app. simpl. rewrite !app_nil_r.
    split; [done|]. split; [done|]. by left.
  - rewrite (shell_round_f_eq X fails r command w a rest Ha). cbv zeta.
    assert (forall w1 evs,
              answers w1 = rest ->
              trace w1 = trace w ++ evs ->
              exists n,
                (n <= length (a :: rest))%nat /\
                run_commands
                  (trace (world_of
                     (while fuel (fun _ : () => true)
                        (fun _ => shell_round_f X fails r (Some command)) tt
                        w1)))
                = run_commands (trace w) ++
                  run_commands evs ++
                  replicate
                    (how_many (executes (default_option X))
                       (take (Nat.pred n) rest)) command /\
                (0 < n)%nat /\
                ((outcome
                    (while fuel (fun _ : () => true)
                       (fun _ => shell_round_f X fails r (Some command)) tt
                       w1) = Raised Abort /\ n = length (a :: rest)) \/
                 (outcome
                    (while fuel (fun _ : () => true)
                       (fun _ => shell_round_f X fails r (Some command)) tt
                       w1) = Raised CompletionFailedError /\
                  (exists a', (a :: rest) !! n = Some a' /\
                              describes (default_option X) a' = true) /\
                  exists tr c, fails tr c = true))) as Hnext.
    { intros w1 evs Ha1 Htr.
      destruct (IH fuel w1 Ha1 ltac:(simpl in Hlt; lia))
        as (n & Hn & Hrun & Ho).
      exists (S n). simpl. split; [lia|]. rewrite Hrun, Htr, run_commands_app.
      rewrite <- app_assoc. split; [done|]. split; [lia|].
      destruct Ho as [[-> ->]|(-> & ? & ?)]; [by left|by right]. }
    unfold how_many, executes, describes in *.
    destruct (default (default_option X) a) eqn:Eo.
    + match goal with
      | |- context [while fuel _ _ _ ?w1] =>
          destruct (Hnext w1 [EAsk confirm_text; EChoice OptE;
                              ERunCommand command] eq_refl)
            as (n & Hn & Hrun & Hpos & Ho);
            [by simpl; rewrite <- app_assoc|]
      end.
      exists n. split; [done|]. rewrite Hrun. simpl.
      destruct n as [|n]; [lia|]. simpl. rewrite Eo. simpl.
      split; [done|]. done.
    + destruct (fails _ _) eqn:Ef.
      * exists 0%nat. simpl. rewrite run_commands_app. simpl.
        rewrite !app_nil_r. split; [lia|]. split; [done|]. right.
        split; [done|]. split; [|by eauto]. exists a. by rewrite Eo.
      * match goal with
        | |- context [while fuel _ _ _ ?w1] =>
            destruct (Hnext w1
                        [EAsk confirm_text; EChoice OptD;
                         EHandle (describe_call X r command)
                           (completion X
                              (trace w ++ [EAsk confirm_text; EChoice OptD])
                              (describe_call X r command))] eq_refl)
              as (n & Hn & Hrun & Hpos & Ho);
              [by simpl; rewrite <- app_assoc|]
        end.
        exists n. split; [done|]. rewrite Hrun. simpl.
        destruct n as [|n]; [lia|]. simpl. rewrite Eo. simpl.
        split; [done|]. done.
    + match goal with
      | |- context [while fuel _ _ _ ?w1] =>
          destruct (Hnext w1 [EAsk confirm_text; EChoice OptA] eq_refl)
            as (n & Hn & Hrun & Hpos & Ho); [done|]
      end.
      exists n. split; [done|]. rewrite Hrun. simpl.
      destruct n as [|n]; [lia|]. simpl. rewrite Eo. simpl.
      split; [done|]. done.
    + match goal with
      | |- context [while fuel _ _ _ ?w1] =>
          destruct (Hnext w1 [EAsk confirm_text; EChoice OptY;
                              ERunCommand command] eq_refl)
            as (n & Hn & Hrun & Hpos & Ho);
            [by simpl; rewrite <- app_assoc|]
      end.
      exists n. split; [done|]. rewrite Hrun. simpl.
      destruct n as [|n]; [lia|]. simpl. rewrite Eo. simpl.
      split; [done|]. done.
Qed.

(** X12. For a [--shell] request on the single-shot path on a terminal:
    either the first completion fails, and nothing is run; or its answer is
    what is run for every reply that takes the Execute branch ([e], [y], or
    an empty reply when the configured default is Execute), once per such
    reply, until the session ends: with [Abort], when the terminal has
    stopped answering and every reply has been served, or with the failure
    of the description a reply asked for. *)
Theorem shell_session_runs_the_completion_per_execute
    (X : Externals) (fails : list Event -> Call -> bool) (fuel : nat)
    (r : Request) (typed : list string)
    (replies : list (option ShellOption)) (ro : Role) :
  reaches_shell_loop X r false = true ->
  truthy (chat r) = false ->
  resolved_role X r = Some ro ->
  shell r = true ->
  (length replies < fuel)%nat ->
  let run := main_f X fails fuel r (boot (Tty typed) replies) in
  let request := call_of (DefaultHandler ro) (prompt r) r None (cache r) in
  (outcome run = Raised CompletionFailedError /\
   fails [role_event r] request = true /\
   handles (trace (world_of run)) = [] /\
   run_commands (trace (world_of run)) = [])
  \/
  exists answer n,
    head (handles (trace (world_of run))) = Some (request, answer) /\
    (n <= length replies)%nat /\
    run_commands (trace (world_of run)) =
      replicate (how_many (executes (default_option X)) (take n replies))
        answer /\
    ((outcome run = Raised Abort /\ n = length replies) \/
     (outcome run = Raised CompletionFailedError /\
      (exists a, replies !! n = Some a /\
                 describes (default_option X) a = true) /\
      exists tr c, fails tr c = true)).
Proof.
  intros Hp Hc Hro Hs Hlt run request.
  pose proof (reaches_passes X r (Tty typed)) as E. simpl in E.
  rewrite E in Hp. clear E.
  destruct (passes_guards X r false _ Hp) as (Hi & Hpr & Hm & Hr & He & _ & _).
  unfold run.
  rewrite (main_f_past_guards X fails fuel r (boot (Tty typed) replies) ro
             Hi Hpr Hm Hr He Hro).
  rewrite Hc. simpl. unfold bind, handle_f, ret. simpl. fold request.
  destruct (fails [role_event r] request) eqn:Ef.
  { left. simpl. unfold role_event. by destruct (truthy (role r)). }
  right.
  match goal with
  | |- context [shell_loop_f X fails fuel r false (Some ?answer) ?w1] =>
      destruct (shell_loop_f_counts X fails r answer Hs replies fuel w1
                  eq_refl Hlt) as (n & Hn & Hrun & Ho);
      destruct (shell_loop_f_emits (fun _ => True) X fails fuel r false
                  (Some answer) ltac:(done) w1) as (evs & Hevs & _);
      exists answer, n
  end.
  rewrite Hrun, Hevs. cbn [trace after_read boot stdin app].
  unfold role_event in *. by destruct (truthy (role r)).
Qed.

Lemma shell_session_runs_the_completion_per_execute_witness :
  (reaches_shell_loop demo shell_request false = true /\
   truthy (chat shell_request) = false /\
   resolved_role demo shell_request = Some (get_role demo SHELL) /\
   shell shell_request = true /\
   (length [Some OptE; None; Some OptY] < 4)%nat) /\
  ((outcome (main_f demo no_faults 4 shell_request
               (boot (Tty []) [Some OptE; None; Some OptY])) =
      Raised CompletionFailedError /\
    no_faults [role_event shell_request]
      (call_of (DefaultHandler (get_role demo SHELL)) (prompt shell_request)
         shell_request None (cache shell_request)) = true /\
    handles (trace (world_of
       (main_f demo no_faults 4 shell_request
          (boot (Tty []) [Some OptE; None; Some OptY])))) = [] /\
    run_commands (trace (world_of
       (main_f demo no_faults 4 shell_request
          (boot (Tty []) [Some OptE; None; Some OptY])))) = [])
   \/
   exists answer n,
     head (handles (trace (world_of
             (main_f demo no_faults 4 shell_request
                (boot (Tty []) [Some OptE; None; Some OptY]))))) =
     Some (call_of (DefaultHandler (get_role demo SHELL))
             (prompt shell_request) shell_request None (cache shell_request),
           answer) /\
     (n <= length [Some OptE; None; Some OptY])%nat /\
     run_commands (trace (world_of
        (main_f demo no_faults 4 shell_request
           (boot (Tty []) [Some OptE; None; Some OptY])))) =
     replicate (how_many (executes (default_option demo))
                  (take n [Some OptE; None; Some OptY])) answer /\
     ((outcome (main_f demo no_faults 4 shell_request
                  (boot (Tty []) [Some OptE; None; Some OptY])) =
         Raised Abort /\ n = length [Some OptE; None; Some OptY]) \/
      (outcome (main_f demo no_faults 4 shell_request
                  (boot (Tty []) [Some OptE; None; Some OptY])) =
         Raised CompletionFailedError /\
       (exists a, [Some OptE; None; Some OptY] !! n = Some a /\
                  describes (default_option demo) a = true) /\
       exists tr c, no_faults tr c = true))).
Proof.
  split; [repeat split; simpl; lia|].
  apply (shell_session_runs_the_completion_per_execute demo no_faults 4
           shell_request [] [Some OptE; None; Some OptY]
           (get_role demo SHELL));
    first [reflexivity | simpl; lia].
Defined.

(** ** The first prompt a computation sends *)

Lemma silent_sends_nothing (evs : list Event) :
  Forall silent evs -> prompts evs = [].
Proof.
  induction 1 as [|e evs He _ IH]; [done|].
  change (e :: evs) with ([e] ++ evs). rewrite prompts_app, IH.
  unfold prompts. by rewrite He.
Qed.

Lemma sends_first_bind t {A B} (m : M A) (k : A -> M B) :
  emits silent m -> (forall a, sends_first t (k a)) ->
  sends_first t (bind m k).
Proof.
  intros Hm Hk w. unfold bind. destruct (Hm w) as (evs & Hw & Hevs).
  pose proof (silent_sends_nothing evs Hevs) as Hs.
  destruct (m w) as [a w1|e w1|w1]; simpl in Hw.
  - destruct (Hk a w1) as (sent & -> & Hsent). exists sent.
    by rewrite Hw, prompts_app, Hs, app_nil_r.
  - exists []. simpl. rewrite Hw, prompts_app, Hs. by split.
  - exists []. simpl. rewrite Hw, prompts_app, Hs. by split.
Qed.

(** A completion, and then anything. *)
Lemma sends_first_handle_f X fails h t r id c {B} (k : string -> M B) :
  (forall a, emits (fun _ => True) (k a)) ->
  sends_first t (bind (handle_f X fails h t r id c) k).
Proof.
  intros Hk w. unfold bind, handle_f. destruct (fails _ _).
  - exists []. simpl. rewrite app_nil_r. by split.
  - match goal with
    | |- context [k ?a ?w1] => destruct (Hk a w1) as (evs & Hw & _)
    end.
    exists (t :: prompts evs). rewrite Hw. simpl. rewrite !prompts_app.
    rewrite <- app_assoc. split; [done|]. by intros p rest [= <- _].
Qed.

Lemma sends_first_dual_loop_f X fails fuel h1 h2 r p q {B} (k : _ -> M B) :
  sends_first p (bind (dual_loop_f X fails fuel h1 h2 r (p, q)) k).
Proof.
  intros w.
  destruct (dual_loop_f_first_prompts X fails fuel h1 h2 r p q w)
    as (sent & Hsent & Hcases & _).
  exists sent. split.
  - unfold bind.
    destruct (dual_loop_f X fails fuel h1 h2 r (p, q) w) as [x w1| |] eqn:E;
      [by apply dual_loop_f_never_returns in E|done..].
  - intros p' rest ->.
    destruct Hcases as [?|[?|(rest' & ?)]]; congruence.
Qed.

Lemma bind_done {A B} (m : M A) (k : A -> M B) w b w' :
  bind m k w = Done b w' ->
  exists a w1, m w = Done a w1 /\ k a w1 = Done b w'.
Proof.
  unfold bind. destruct (m w) as [a w1| |]; [|done..]. by eexists _, _.
Qed.

(** [serve] hands [stdin_passed] on unchanged. *)
Lemma serve_f_flag X fails fuel r sp p w sp' fc w' :
  serve_f X fails fuel r sp p w = Done (sp', fc) w' -> sp' = sp.
Proof.
  unfold serve_f. intros H.
  repeat (apply bind_done in H as (? & ? & _ & H)).
  destruct (truthy (chat r)).
  - destruct (second_ai r && is_not_None (second_ai_prompt r));
      apply bind_done in H as (? & ? & _ & H); by injection H as <-.
  - apply bind_done in H as (? & ? & _ & H). by injection H as <-.
Qed.

(** With piped input the confirmation loop adds nothing to what [serve]
    did. *)
Lemma piped_run_is_serve X fails fuel r p w :
  world_of
    (bind (serve_f X fails fuel r true p)
       (fun locals => let '(stdin_passed, full_completion) := locals in
                      shell_loop_f X fails fuel r stdin_passed full_completion)
       w) =
  world_of (serve_f X fails fuel r true p w).
Proof.
  unfold bind.
  destruct (serve_f X fails fuel r true p w) as [[sp' fc] w1| |] eqn:E;
    [|done..].
  apply serve_f_flag in E as ->. unfold shell_loop_f. simpl.
  rewrite andb_false_r. by destruct fuel.
Qed.

(** Interactive mode on an input that is over requests nothing. *)
Lemma serve_f_interactive_drained X fails fuel r sp p w :
  interactive_mode r = true ->
  lines_of (stdin w) = [] ->
  prompts (trace (world_of (serve_f X fails fuel r sp p w))) =
  prompts (trace w).
Proof.
  intros Hi Hl. unfold serve_f. rewrite Hi. simpl. unfold bind at 1.
  match goal with
  | |- context [match ?m with Done _ _ => _ | Raise _ _ => _ | Spin _ => _ end]
    => assert (world_of m = world_of m /\
               prompts (trace (world_of m)) = prompts (trace w)) as [_ Hm];
       [split; [done|]|
        destruct m as [x w1|e w1|w1] eqn:E; [|done..]]
  end.
  - unfold bind, SystemRole_get, bind, emit.
    destruct (lookup_role X (role r)) as [ro|]; simpl.
    + match goal with
      | |- context [interactive_loop_f X fails fuel ?h r ?w1] =>
          destruct (interactive_loop_f_runs X fails h r fuel w1)
            as (n & Hc & _)
      end.
      simpl in Hc. rewrite Hl, take_nil in Hc. simpl in Hc.
      unfold prompts. rewrite Hc, calls_app. simpl. by rewrite !app_nil_r.
    + rewrite prompts_app. by rewrite app_nil_r.
  - exfalso. revert E. apply bind_never_returns_r. intros ro.
    apply while_true_never_returns.
Qed.

(** Out of interactive mode and without a repl id, the first prompt
    [serve] sends is the prompt it was given, except on the one-shot path,
    where it is the second-AI prompt. *)
Lemma serve_f_first_prompt X fails fuel r sp p :
  interactive_mode r = false ->
  truthy (repl r) = false ->
  sends_first (if is_one_shot r then second_ai_prompt r else p)
    (serve_f X fails fuel r sp p).
Proof.
  intros Hi Hr. unfold serve_f, is_one_shot. rewrite Hi, Hr.
  unfold when at 1 5.
  repeat (apply sends_first_bind;
          [unfold resolve_role, check_get, SystemRole_get; emits_tac
          |intros ?]).
  destruct (truthy (chat r)); simpl.
  - destruct (second_ai r && is_not_None (second_ai_prompt r)).
    + unfold handle_second_ai_f.
      intros w. unfold bind, handle_f, ret. destruct (fails _ _); simpl.
      * exists []. rewrite app_nil_r. by split.
      * exists [second_ai_prompt r]. rewrite prompts_app. split; [done|].
        by intros ? ? [= <- _].
    + apply sends_first_dual_loop_f.
  - apply sends_first_handle_f. intros answer. emits_tac.
Qed.

(** ** The prompt built from piped input *)

(** C10. With piped standard input and no repl option: reading the prompt
    empties the pipe and yields the whole of standard input, then two line
    feeds, then the prompt argument, or the empty string when there is no
    prompt argument; that prompt is what the rest of [main] is run with;
    the first completion the run requests, if it requests any, is for that
    prompt, except on the one-shot path, where it is for the second-AI
    prompt; and when control gets to the single-shot handler and its
    completion is answered, that completion is the only one and is for that
    prompt. *)
Theorem piped_prompt_is_stdin_then_argument
    (X : Externals) (fails : list Event -> Call -> bool) (fuel : nat)
    (r : Request) (content : string) (a : list (option ShellOption))
    (tr : list Event) :
  truthy (repl r) = false ->
  let w0 := {| stdin := Pipe content; answers := a; trace := tr |} in
  let w1 := {| stdin := Pipe ""; answers := a;
               trace := tr ++ [EStdinRead content] |} in
  read_prompt r w0 =
    Done (true, Some (content +:+ LF +:+ LF +:+ default "" (prompt r))) w1 /\
  main_f X fails fuel r w0 =
    bind (serve_f X fails fuel r true (piped_prompt r content))
      (fun locals => let '(stdin_passed, full_completion) := locals in
                     shell_loop_f X fails fuel r stdin_passed full_completion)
      w1 /\
  (forall p rest,
     prompts (trace (world_of (main_f X fails fuel r w0))) =
       prompts tr ++ p :: rest ->
     p = if is_one_shot r then second_ai_prompt r
         else piped_prompt r content) /\
  (forall ro,
     reaches_shell_loop X r true = true ->
     truthy (chat r) = false ->
     resolved_role X r = Some ro ->
     fails (tr ++ [EStdinRead content; role_event r])
       (call_of (DefaultHandler ro) (piped_prompt r content) r None (cache r))
       = false ->
     calls (trace (world_of (main_f X fails fuel r w0))) =
       calls tr ++
       [call_of (DefaultHandler ro) (piped_prompt r content) r None
          (cache r)]).
Proof.
  intros Hrepl w0 w1.
  assert (read_prompt r w0 = Done (true, piped_prompt r content) w1) as Hread.
  { unfold read_prompt, bind, isatty, stdin_read, ret, piped_prompt. simpl.
    rewrite Hrepl. simpl. by rewrite or_empty_default. }
  assert (main_f X fails fuel r w0 =
          bind (serve_f X fails fuel r true (piped_prompt r content))
            (fun locals =>
               let '(stdin_passed, full_completion) := locals in
               shell_loop_f X fails fuel r stdin_passed full_completion) w1)
    as Hmain.
  { unfold main_f. unfold bind at 1 2. by rewrite Hread. }
  split; [exact Hread|]. split; [exact Hmain|]. split.
  - intros p rest. rewrite Hmain, piped_run_is_serve.
    destruct (interactive_mode r) eqn:Hi.
    + rewrite (serve_f_interactive_drained X fails fuel r true _ w1 Hi eq_refl).
      simpl. rewrite prompts_app. simpl. rewrite app_nil_r.
      intros H. apply (f_equal length) in H.
      rewrite length_app in H. simpl in H. lia.
    + destruct (serve_f_first_prompt X fails fuel r true
                  (piped_prompt r content) Hi Hrepl w1) as (sent & -> & Hsent).
      simpl. rewrite prompts_app. simpl. rewrite app_nil_r.
      intros H%app_inv_head. by apply (Hsent p rest).
  - intros ro Hp Hc Hro Hf.
    change (reaches_shell_loop X r true)
      with (passes X r true (true || truthy (prompt r))) in Hp.
    destruct (passes_guards X r true _ Hp) as (Hi & _ & Hm & _ & He & _ & _).
    rewrite Hmain, piped_run_is_serve.
    rewrite (serve_f_past_guards X fails fuel r true (piped_prompt r content)
               ro w1 Hi);
      [|by unfold piped_prompt; rewrite truthy_piped|done..].
    rewrite Hc. unfold bind, handle_f, ret. simpl.
    rewrite <- app_assoc. simpl. rewrite Hf. simpl.
    rewrite !calls_app. simpl. unfold role_event.
    destruct (truthy (role r)); simpl; by rewrite app_nil_r.
Qed.

Lemma piped_prompt_is_stdin_then_argument_witness :
  truthy (repl (with_prompt "what failed?" bare)) = false /\
  let r := with_prompt "what failed?" bare in
  let w0 := {| stdin := Pipe "E: no route"; answers := []; trace := [] |} in
  let w1 := {| stdin := Pipe ""; answers := [];
               trace := [] ++ [EStdinRead "E: no route"] |} in
  read_prompt r w0 =
    Done (true, Some ("E: no route" +:+ LF +:+ LF +:+ default "" (prompt r)))
      w1 /\
  main_f demo no_faults 1 r w0 =
    bind (serve_f demo no_faults 1 r true (piped_prompt r "E: no route"))
      (fun locals => let '(stdin_passed, full_completion) := locals in
                     shell_loop_f demo no_faults 1 r stdin_passed
                       full_completion)
      w1 /\
  (forall p rest,
     prompts (trace (world_of (main_f demo no_faults 1 r w0))) =
       prompts [] ++ p :: rest ->
     p = if is_one_shot r then second_ai_prompt r
         else piped_prompt r "E: no route") /\
  (forall ro,
     reaches_shell_loop demo r true = true ->
     truthy (chat r) = false ->
     resolved_role demo r = Some ro ->
     no_faults ([] ++ [EStdinRead "E: no route"; role_event r])
       (call_of (DefaultHandler ro) (piped_prompt r "E: no route") r None
          (cache r)) = false ->
     calls (trace (world_of (main_f demo no_faults 1 r w0))) =
       calls [] ++
       [call_of (DefaultHandler ro) (piped_prompt r "E: no route") r None
          (cache r)]).
Proof.
  split; [reflexivity|].
  apply (piped_prompt_is_stdin_then_argument demo no_faults 1
           (with_prompt "what failed?" bare) "E: no route" [] []).
  reflexivity.
Defined.

(** The run behind it: [echo "E: no route" | sgpt "what failed?"] requests
    one completion, for the piped text, two line feeds and the argument. *)
Example piped_prompt_is_what_is_completed :
  prompts (trace (world_of
            (main_f demo no_faults 1 (with_prompt "what failed?" bare)
               (boot (Pipe "E: no route") [])))) =
  [Some ("E: no route" +:+ LF +:+ LF +:+ "what failed?")].
Proof. reflexivity. Qed.

(** On the one-shot path the piped prompt is built and sent to nobody. *)
Example piped_prompt_on_the_one_shot_path :
  prompts (trace (world_of
            (main_f demo no_faults 1 one_shot (boot (Pipe "E: no route") []))))
  = [Some "yo"].
Proof. reflexivity. Qed.
